(** * eq_inventory: the checkpointed trade-log scanner and its tabular merge

    A shallow embedding of [src/eq_inventory/eqlog_parser.py]: the
    timestamp/trade extraction of a log line, the [History] checkpoint,
    the classifier/counter [Inventory.process_trade], the scanning loop
    [Inventory.update], and the read-merge-write of
    [Inventory.add_counts_to_csv], over an explicit file store.

    Conventions of the embedding.
    - Text is ASCII [string]; Python's [\w] is taken on ASCII
      (letters, digits, underscore).
    - A [datetime] is the tuple of its fields; naive datetimes compare
      lexicographically on that tuple, as CPython does.
    - [datetime.strptime] and [os.path.join] are library functions whose
      behaviour the program does not define; they are the two members of
      the class [PyLib], over which every definition is generic.
    - A dict is an insertion-ordered association list with unique keys,
      since [dict.items()] iterates in insertion order and that order is
      the order of the rows appended to a table.
    - The [csv] module is taken at the level of rows: a table file holds
      the list of rows [csv.reader] yields, [writer.writerow] appends one
      row, [None] is written as the empty cell and an [int] as its
      decimal text; [int] reads a cell as Python does on ASCII text
      (surrounding whitespace, a sign, underscores between digits).
    - Exceptions are values of [exn]; a computation that raises leaves
      the store as it was at the raise. *)

From Stdlib Require Import ZArith Ascii String List Lia Bool.
From Stdlib Require Import DecimalString DecimalZ DecimalPos.
From stdpp Require Import base option list gmap strings.

Import ListNotations.
Local Open Scope string_scope.
Local Open Scope Z_scope.
Local Open Scope list_scope.

(* ===================================================================== *)
(** ** Python primitives used by the program *)
(* ===================================================================== *)

Inductive exn : Type :=
| FileNotFoundError
| UnpicklingError
| IndexError
| ValueError.

(** [s[n:]] *)
Fixpoint str_drop (n : nat) (s : string) : string :=
  match n, s with
  | O, _ => s
  | S _, EmptyString => EmptyString
  | S k, String _ s' => str_drop k s'
  end.

(** [s[:n]] for [n >= 0] *)
Fixpoint str_take (n : nat) (s : string) : string :=
  match n, s with
  | O, _ => EmptyString
  | S _, EmptyString => EmptyString
  | S k, String c s' => String c (str_take k s')
  end.

(** [s[:-n]] for [n > 0]: everything but the last [n] characters. *)
Definition str_drop_last (n : nat) (s : string) : string :=
  str_take (String.length s - n) s.

(** [\w] on ASCII text. *)
Definition is_word_char (c : ascii) : bool :=
  let n := nat_of_ascii c in
  ((48 <=? n) && (n <=? 57))%nat ||
  ((65 <=? n) && (n <=? 90))%nat ||
  ((97 <=? n) && (n <=? 122))%nat ||
  (n =? 95)%nat.

(** The longest prefix of word characters, and what follows it.  This is
    what a greedy [\w+] consumes; no shorter run can be followed by a
    character that is not a word character, so backtracking into the run
    never yields another match for the patterns of this program. *)
Fixpoint span_word (s : string) : string * string :=
  match s with
  | EmptyString => (EmptyString, EmptyString)
  | String c s' =>
      if is_word_char c
      then let '(w, r) := span_word s' in (String c w, r)
      else (EmptyString, s)
  end.

(** Matching a literal at the start of [s]; returns the remainder. *)
Fixpoint strip_prefix (p s : string) : option string :=
  match p, s with
  | EmptyString, _ => Some s
  | String _ _, EmptyString => None
  | String a p', String b s' =>
      if Ascii.eqb a b then strip_prefix p' s' else None
  end.

(** [s.split(sep)] for a non-empty separator [sep]; [skip] counts the
    characters of a separator occurrence still to be passed over and
    [cur] is the piece being accumulated. *)
Fixpoint split_go (sep : string) (skip : nat) (cur s : string) : list string :=
  match s with
  | EmptyString => [cur]
  | String c s' =>
      match skip with
      | S k => split_go sep k cur s'
      | O =>
          match strip_prefix sep s with
          | Some _ => cur :: split_go sep (String.length sep - 1) EmptyString s'
          | None => split_go sep 0 (cur +:+ String c EmptyString) s'
          end
      end
  end.

Definition py_split (sep s : string) : list string := split_go sep 0 EmptyString s.

(** Whitespace as [int] skips it around a literal: tab to carriage
    return, the separators 28 to 31 and the blank; past ASCII, among the
    code points below 256, the next-line character 133 and the no-break
    space 160. *)
Definition is_py_space (c : ascii) : bool :=
  let n := nat_of_ascii c in
  ((9 <=? n) && (n <=? 13))%nat || ((28 <=? n) && (n <=? 31))%nat || (n =? 32)%nat
  || (n =? 133)%nat || (n =? 160)%nat.

(** The value of an ASCII decimal digit. *)
Definition digit_value (c : ascii) : option Z :=
  let n := nat_of_ascii c in
  if ((48 <=? n) && (n <=? 57))%nat then Some (Z.of_nat n - 48) else None.

(** [s] without its leading whitespace. *)
Fixpoint skip_space (s : string) : string :=
  match s with
  | EmptyString => EmptyString
  | String c s' => if is_py_space c then skip_space s' else s
  end.

(** The digits of a decimal literal, most significant first, with single
    underscores allowed between digits; [after_underscore] tells that the
    last character read was an underscore.  Returns the value and what
    follows the literal. *)
Fixpoint scan_digits (acc : Z) (after_underscore : bool) (s : string) : option (Z * string) :=
  match s with
  | EmptyString => if after_underscore then None else Some (acc, EmptyString)
  | String c s' =>
      match digit_value c with
      | Some d => scan_digits (10 * acc + d) false s'
      | None =>
          if Ascii.eqb c "_"
          then if after_underscore then None else scan_digits acc true s'
          else if after_underscore then None else Some (acc, s)
      end
  end.

(** An unsigned literal: it starts with a digit, and only whitespace may
    follow it. *)
Definition py_int_unsigned (s : string) : option Z :=
  match s with
  | EmptyString => None
  | String c _ =>
      match digit_value c with
      | None => None
      | Some _ =>
          match scan_digits 0 false s with
          | Some (n, rest) =>
              match skip_space rest with
              | EmptyString => Some n
              | String _ _ => None
              end
          | None => None
          end
      end
  end.

(** [int(s)] for a [str] in base ten: whitespace around the literal is
    skipped, one sign may precede the digits, single underscores may
    separate digits; [None] stands for [ValueError].  (Integers are
    unbounded; the cap that recent CPython releases put on the number of
    digits converted is left out.) *)
Definition py_int (s : string) : option Z :=
  match skip_space s with
  | EmptyString => None
  | String c s' =>
      if Ascii.eqb c "-" then Z.opp <$> py_int_unsigned s'
      else if Ascii.eqb c "+" then py_int_unsigned s'
      else py_int_unsigned (String c s')
  end.

(** [str(n)] for an [int]. *)
Definition py_str (n : Z) : string := NilZero.string_of_int (Z.to_int n).

(** The value of a sequence of decimal digits read most significant
    first, continuing from [acc]. *)
Fixpoint uint_value (d : Decimal.uint) (acc : Z) : Z :=
  match d with
  | Decimal.Nil => acc
  | Decimal.D0 d => uint_value d (10 * acc)
  | Decimal.D1 d => uint_value d (10 * acc + 1)
  | Decimal.D2 d => uint_value d (10 * acc + 2)
  | Decimal.D3 d => uint_value d (10 * acc + 3)
  | Decimal.D4 d => uint_value d (10 * acc + 4)
  | Decimal.D5 d => uint_value d (10 * acc + 5)
  | Decimal.D6 d => uint_value d (10 * acc + 6)
  | Decimal.D7 d => uint_value d (10 * acc + 7)
  | Decimal.D8 d => uint_value d (10 * acc + 8)
  | Decimal.D9 d => uint_value d (10 * acc + 9)
  end.

(** [",".join(row)] *)
Definition py_join (sep : string) (l : list string) : string := String.concat sep l.

(** [datetime]: a naive point in time (microsecond is always 0 here). *)
Record datetime : Type := mk_datetime {
  year : Z; month : Z; day : Z; hour : Z; minute : Z; second : Z
}.

Definition datetime_key (d : datetime) : list Z :=
  [year d; month d; day d; hour d; minute d; second d].

Fixpoint lex_compare (a b : list Z) : comparison :=
  match a, b with
  | [], [] => Eq
  | [], _ :: _ => Lt
  | _ :: _, [] => Gt
  | x :: a', y :: b' =>
      match x ?= y with
      | Eq => lex_compare a' b'
      | c => c
      end
  end.

(** [a <= b] on datetimes *)
Definition datetime_le (a b : datetime) : bool :=
  match lex_compare (datetime_key a) (datetime_key b) with
  | Gt => false
  | _ => true
  end.

(** The library functions the program calls but does not define. *)
Class PyLib : Type := {
  (** [datetime.strptime(text, format)]; [None] stands for [ValueError]. *)
  strptime : string -> string -> option datetime;
  (** [os.path.join(a, b)] *)
  os_path_join : string -> string -> string
}.

(** ** Dictionaries: insertion-ordered association lists *)

Abbreviation dict := (list (string * Z)).

Fixpoint dict_get (d : dict) (k : string) : option Z :=
  match d with
  | [] => None
  | (k', v) :: d' => if String.eqb k' k then Some v else dict_get d' k
  end.

(** [k in d] *)
Definition dict_mem (d : dict) (k : string) : bool :=
  match dict_get d k with Some _ => true | None => false end.

(** [d[k] = v]: overwrite in place, or append a new key at the end. *)
Fixpoint dict_set (d : dict) (k : string) (v : Z) : dict :=
  match d with
  | [] => [(k, v)]
  | (k', v') :: d' =>
      if String.eqb k' k then (k', v) :: d' else (k', v') :: dict_set d' k v
  end.

(** [d.pop(k)], the dictionary that remains. *)
Fixpoint dict_pop (d : dict) (k : string) : dict :=
  match d with
  | [] => []
  | (k', v) :: d' =>
      if String.eqb k' k then d' else (k', v) :: dict_pop d' k
  end.

(** [any(d)]: some key is truthy, i.e. a non-empty string. *)
Definition dict_any (d : dict) : bool :=
  existsb (fun kv => negb (String.eqb (fst kv) EmptyString)) d.

(** [str(d)] for a datetime without microseconds: [YYYY-MM-DD HH:MM:SS]. *)
Definition zero_pad (width : nat) (n : Z) : string :=
  let s := py_str n in
  String.concat EmptyString (replicate (width - String.length s)%nat "0") +:+ s.

Definition datetime_str (d : datetime) : string :=
  zero_pad 4 (year d) +:+ "-" +:+ zero_pad 2 (month d) +:+ "-" +:+ zero_pad 2 (day d)
  +:+ " " +:+ zero_pad 2 (hour d) +:+ ":" +:+ zero_pad 2 (minute d) +:+ ":" +:+ zero_pad 2 (second d).

(** A cell handed to [csv.writer]: [None], a [str] or an [int]. *)
Inductive pyval : Type :=
| PNone
| PStr (s : string)
| PInt (n : Z).

(** What [writer.writerow] writes for a cell and [csv.reader] reads back. *)
Definition csv_cell (v : pyval) : string :=
  match v with
  | PNone => EmptyString
  | PStr s => s
  | PInt n => py_str n
  end.

(* ===================================================================== *)
(** ** Logging, the file store and the monad of the program *)
(* ===================================================================== *)

Inductive level : Type := INFO | WARNING.

(** One record of the root logger ([_DEBUG] is off, so the level is INFO
    and both kinds of record are emitted). *)
Definition log_record : Type := level * string.

Abbreviation row := (list string).

Record Config : Type := mk_config {
  eq_path : string;
  mule_names : string;
  word_inventory : string;
  item_inventory : string;
  inventory_pickle : string;
  log_name : string
}.

Module History.

Record t : Type := mk { timestamps : list datetime; actions : list string }.

(** [History.__init__] *)
Definition init : t :=
  {| timestamps := [mk_datetime 1900 1 1 0 0 0]; actions := [EmptyString] |}.

(** [History.record]; [action] is the match, as its two named groups
    [(PLAYER, ITEM)]. *)
Definition record (self : t) (timestamp : datetime) (action : string * string) : t :=
  {| timestamps := timestamps self ++ [timestamp];
     actions := actions self ++ [fst action +:+ " -> " +:+ snd action] |}.

End History.

(** What a checkpoint file holds: a pickled [History], or bytes that
    [pickle.load] rejects. *)
Inductive pickle_file : Type :=
| Pickled (h : History.t)
| Garbage.

(** The files of the run, by path and by kind, and the records logged so
    far.  A log file is the list [f.readlines()] returns (each line with
    its terminator); a table is the list of rows [csv.reader] yields. *)
Record World : Type := mk_world {
  config_files : gmap string Config;
  log_files : gmap string (list string);
  csv_files : gmap string (list row);
  pickle_files : gmap string pickle_file;
  diag : list log_record
}.

Definition set_csv_files (f : gmap string (list row) -> gmap string (list row)) (w : World) : World :=
  {| config_files := config_files w; log_files := log_files w;
     csv_files := f (csv_files w); pickle_files := pickle_files w; diag := diag w |}.

Definition set_pickle_files (f : gmap string pickle_file -> gmap string pickle_file) (w : World) : World :=
  {| config_files := config_files w; log_files := log_files w;
     csv_files := csv_files w; pickle_files := f (pickle_files w); diag := diag w |}.

Definition add_diag (l : list log_record) (w : World) : World :=
  {| config_files := config_files w; log_files := log_files w;
     csv_files := csv_files w; pickle_files := pickle_files w; diag := diag w ++ l |}.

(** Computations over the store that may raise. *)
Definition M (A : Type) : Type := World -> (exn + A) * World.

Definition ret {A} (a : A) : M A := fun w => (inr a, w).
Definition raise {A} (e : exn) : M A := fun w => (inl e, w).
Definition bind {A B} (m : M A) (k : A -> M B) : M B :=
  fun w => match m w with
           | (inr a, w') => k a w'
           | (inl e, w') => (inl e, w')
           end.
Definition gets {A} (f : World -> A) : M A := fun w => (inr (f w), w).
Definition modify (f : World -> World) : M unit := fun w => (inr tt, f w).
Definition emit (l : list log_record) : M unit := modify (add_diag l).
Definition lift_exn {A} (r : exn + A) : M A :=
  match r with inl e => raise e | inr a => ret a end.

Notation "'let*' x ':=' m 'in' k" := (bind m (fun x => k))
  (at level 10, x name, m at level 100, k at level 200).
Notation "'do*' m 'in' k" := (bind m (fun _ => k))
  (at level 10, m at level 100, k at level 200).

(** Computations that only log: the value and the records emitted. *)
Definition logged (A : Type) : Type := A * list log_record.

Definition lret {A} (a : A) : logged A := (a, []).
Definition lbind {A B} (m : logged A) (k : A -> logged B) : logged B :=
  let '(b, l2) := k (fst m) in (b, snd m ++ l2).
Definition tell (lv : level) (msg : string) : logged unit := (tt, [(lv, msg)]).
Definition lift_logged {A} (m : logged A) : M A :=
  fun w => (inr (fst m), add_diag (snd m) w).

Notation "'let+' x ':=' m 'in' k" := (lbind m (fun x => k))
  (at level 10, x name, m at level 100, k at level 200).
Notation "'do+' m 'in' k" := (lbind m (fun _ => k))
  (at level 10, m at level 100, k at level 200).

(* ===================================================================== *)
(** ** Module-level constants and functions of eqlog_parser.py *)
(* ===================================================================== *)

Definition _DEBUG : bool := false.

Definition _CONFIG_DEFAULTS : Config :=
  {| eq_path := "C:\Program Files (x86)\Sony\EverQuest\Logs";
     mule_names := "Libarian,Mule,Freeport,Devook";
     word_inventory := "./words.csv";
     item_inventory := "./items.csv";
     inventory_pickle := "./history.pickle";
     log_name := "eqlog_<NAME>_P1999Teal.txt" |}.

Definition newline : string := String (ascii_of_nat 10) EmptyString.

(** [re.match(_TRADE_REGEX, s)] with
    [_TRADE_REGEX = (?P<PLAYER>\w+) has offered you a (?P<ITEM>\w+)[.]];
    the result is the pair of the groups [(PLAYER, ITEM)]. *)
Definition match_trade_regex (s : string) : option (string * string) :=
  let '(player, r1) := span_word s in
  if String.eqb player EmptyString then None else
  match strip_prefix " has offered you a " r1 with
  | None => None
  | Some r2 =>
      let '(item, r3) := span_word r2 in
      if String.eqb item EmptyString then None else
      match strip_prefix "." r3 with
      | None => None
      | Some _ => Some (player, item)
      end
  end.

(** A literal followed by [\w+], anchored at the start ([re.match]). *)
Definition match_literal_word (lit s : string) : bool :=
  match strip_prefix lit s with
  | Some (String c _) => is_word_char c
  | _ => false
  end.

(** [Velishoul's Tome Pg. \w+]: the dot is unescaped and stands for any
    character but a newline. *)
Definition match_velishoul (s : string) : bool :=
  match strip_prefix "Velishoul's Tome Pg" s with
  | Some (String c r) =>
      negb (Ascii.eqb c (ascii_of_nat 10)) && match_literal_word " " r
  | _ => false
  end.

(** [any(re.match(pattern, item_name) for pattern in _WORD_PATTERNS)] *)
Definition matches_word_pattern (item_name : string) : bool :=
  match_literal_word "Part of Tasarin's Grimoire " item_name
  || match_velishoul item_name
  || match_literal_word "Rune of " item_name
  || match_literal_word "Spell: " item_name
  || match_literal_word "Words of " item_name.

Definition check_for_trade_action (line : string) : option (string * string) :=
  match_trade_regex (str_drop 27 line).

Section Functions.
Context `{PyLib}.

Definition get_log_timestamp (log_line : string) : logged (option datetime) :=
  match strptime (str_take 26 log_line) "[%a %b %d %H:%M:%S %Y]" with
  | Some t => lret (Some t)
  | None =>
      if negb (String.eqb log_line newline)
      then do+ tell WARNING ("Failed to find timestamp for: '" +:+ log_line +:+ "'") in lret None
      else lret None
  end.

Definition make_log_path (eq_path log_name character_name : string) : exn + string :=
  match py_split "<NAME>" log_name with
  | p0 :: p1 :: _ => inr (os_path_join eq_path (p0 +:+ character_name +:+ p1))
  | _ => inl IndexError
  end.

End Functions.

Module Inventory.

(** [csv_path[:-4] + "_updated.csv"], the file the merge writes. *)
Definition out_file_name (csv_path : string) : string :=
  str_drop_last 4 csv_path +:+ "_updated.csv".

Definition _word_name_column : nat := 2.
Definition _word_count_column : nat := 3.
Definition _item_name_column : nat := 1.
Definition _item_count_column : nat := 2.

Record t : Type := mk {
  config : Config;
  history_path : string;
  history : History.t;
  words : dict;
  items : dict
}.

(** [Inventory.__init__].  The constructor reads the module global
    [config_file] (its own parameter is unused); that path is the
    argument here. *)
Definition init (config_file : string) : M t :=
  let* on_disk := gets (fun w => config_files w !! config_file) in
  let* cfg :=
    match on_disk, _DEBUG with
    | Some c, false => ret c
    | _, _ =>
        do* emit [(WARNING, "No config found at " +:+ config_file +:+ " - creating new one.")] in
        ret _CONFIG_DEFAULTS
    end in
  let history_path := inventory_pickle cfg in
  let* pickled := gets (fun w => pickle_files w !! history_path) in
  let* history :=
    match pickled, _DEBUG with
    | Some (Pickled h), false => ret h
    | Some Garbage, false => raise UnpicklingError
    | _, _ =>
        do* emit [(WARNING, "No parsing history found at " +:+ history_path +:+ " - creating new one.")] in
        ret History.init
    end in
  ret {| config := cfg; history_path := history_path; history := history;
         words := []; items := [] |}.

(** [Inventory.process_trade]; [trade] is the pair [(PLAYER, ITEM)]. *)
Definition process_trade (self : t) (timestamp : datetime) (trade : string * string) : logged t :=
  let history := History.record (history self) timestamp trade in
  let item_name := snd trade in
  let to_words := matches_word_pattern item_name || dict_mem (words self) item_name in
  do+ tell INFO (if to_words
                 then "Adding " +:+ item_name +:+ " to words inventory."
                 else "Adding " +:+ item_name +:+ " to items inventory") in
  let add_to := if to_words then words self else items self in
  let count :=
    match dict_get add_to item_name with
    | Some c => c + 1
    | None => 1
    end in
  let add_to := dict_set add_to item_name count in
  do+ tell INFO (item_name +:+ " count is now " +:+ py_str count) in
  lret {| config := config self; history_path := history_path self; history := history;
          words := if to_words then add_to else words self;
          items := if to_words then items self else add_to |}.

(** *** The tabular merge *)

(** The locals of [add_counts_to_csv] while its loops run: the widest
    row seen, what is left of [new_counts], the rows handed to the
    writer, and the records logged. *)
Record merge_state : Type := mk_merge {
  num_columns : nat;
  new_counts : dict;
  written : list row;
  emitted : list log_record
}.

(** One iteration of [for row in reader].  The first component is the
    exception raised, if any, with the locals as they are at the raise. *)
Definition merge_row (name_column count_column : nat) (st : merge_state) (r : row)
  : option exn * merge_state :=
  let num_columns := Nat.max (length r) (num_columns st) in
  if (length r <=? Nat.max name_column count_column)%nat then
    (None, {| num_columns := num_columns; new_counts := new_counts st;
              written := written st;
              emitted := emitted st ++
                [(WARNING, "'" +:+ py_join "," r +:+ "' has too few columns - can't read it.")] |})
  else
    let item_name := nth name_column r EmptyString in
    match dict_get (new_counts st) item_name with
    | Some delta =>
        let emitted := emitted st ++
          [(INFO, "Found " +:+ item_name +:+ " is csv. Adding " +:+ py_str delta +:+ " to count.")] in
        match py_int (nth count_column r EmptyString) with
        | None =>
            (Some ValueError,
             {| num_columns := num_columns; new_counts := new_counts st;
                written := written st; emitted := emitted |})
        | Some c =>
            (None,
             {| num_columns := num_columns;
                new_counts := dict_pop (new_counts st) item_name;
                written := written st ++ [<[count_column := py_str (c + delta)]> r];
                emitted := emitted |})
        end
    | None =>
        (None, {| num_columns := num_columns; new_counts := new_counts st;
                  written := written st ++ [r]; emitted := emitted st |})
    end.

Fixpoint merge_rows (name_column count_column : nat) (rows : list row) (st : merge_state)
  : option exn * merge_state :=
  match rows with
  | [] => (None, st)
  | r :: rest =>
      match merge_row name_column count_column st r with
      | (Some e, st') => (Some e, st')
      | (None, st') => merge_rows name_column count_column rest st'
      end
  end.

(** [new_row = [None] * num_columns] with the two assignments; an index
    outside the list raises [IndexError]. *)
Definition new_row (name_column count_column num_columns : nat) (name : string) (count : Z)
  : exn + list pyval :=
  let new_row := replicate num_columns PNone in
  if (length new_row <=? name_column)%nat then inl IndexError else
  let new_row := <[name_column := PStr name]> new_row in
  if (length new_row <=? count_column)%nat then inl IndexError else
  inr (<[count_column := PInt count]> new_row).

(** [for name, count in new_counts.items()]: the dictionary is only
    read by this loop. *)
Fixpoint append_rows (name_column count_column : nat) (remaining : dict) (st : merge_state)
  : option exn * merge_state :=
  match remaining with
  | [] => (None, st)
  | (name, count) :: rest =>
      match new_row name_column count_column (num_columns st) name count with
      | inl e => (Some e, st)
      | inr cells =>
          append_rows name_column count_column rest
            {| num_columns := num_columns st; new_counts := new_counts st;
               written := written st ++ [csv_cell <$> cells];
               emitted := emitted st ++
                 [(INFO, "Didn't find any entries for " +:+ name +:+ " in csv. Adding "
                         +:+ py_str count +:+ " to the bottom.")] |}
      end
  end.

(** Both loops, from the initial locals. *)
Definition merge (name_column count_column : nat) (rows : list row) (new_counts : dict)
  : option exn * merge_state :=
  match merge_rows name_column count_column rows
          {| num_columns := 0; new_counts := new_counts; written := []; emitted := [] |} with
  | (Some e, st) => (Some e, st)
  | (None, st) => append_rows name_column count_column (Inventory.new_counts st) st
  end.

Definition os_remove (path : string) : M unit :=
  let* f := gets (fun w => csv_files w !! path) in
  match f with
  | None => raise FileNotFoundError
  | Some _ => modify (set_csv_files (delete path))
  end.

Definition os_rename (src dst : string) : M unit :=
  let* f := gets (fun w => csv_files w !! src) in
  match f with
  | None => raise FileNotFoundError
  | Some rows => modify (set_csv_files (fun m => <[dst := rows]> (delete src m)))
  end.

(** [Inventory.add_counts_to_csv]; the result is [new_counts] as the
    call leaves it (the caller's dictionary is mutated by [pop]).  The
    rows given to the writer reach the output file when the loops end,
    normally or by an exception. *)
Definition add_counts_to_csv (csv_path : string) (name_column count_column : nat)
    (new_counts : dict) : M dict :=
  let out_file_name := out_file_name csv_path in
  let* in_file := gets (fun w => csv_files w !! csv_path) in
  match in_file with
  | None => raise FileNotFoundError
  | Some rows =>
      do* modify (set_csv_files <[out_file_name := []]>) in
      let '(raised, st) := merge name_column count_column rows new_counts in
      do* emit (emitted st) in
      do* modify (set_csv_files <[out_file_name := written st]>) in
      match raised with
      | Some e => raise e
      | None =>
          do* os_remove csv_path in
          do* os_rename out_file_name csv_path in
          ret (Inventory.new_counts st)
      end
  end.

(** [Inventory.write_new_trades] *)
Definition write_new_trades (self : t) : M t :=
  do* modify (set_pickle_files <[history_path self := Pickled (history self)]>) in
  let* words :=
    if dict_any (words self)
    then add_counts_to_csv (word_inventory (config self))
           _word_name_column _word_count_column (words self)
    else ret (words self) in
  let* items :=
    if dict_any (items self)
    then add_counts_to_csv (item_inventory (config self))
           _item_name_column _item_count_column (items self)
    else ret (items self) in
  ret {| config := config self; history_path := history_path self;
         history := history self; words := words; items := items |}.

Section Scan.
Context `{PyLib}.

(** [for line in f.readlines()], on the locals
    [(self, num_trades_processed, num_trades_for_mule)]. *)
Fixpoint update_lines (last_action_time : datetime) (lines : list string)
    (st : t * Z * Z) : logged (t * Z * Z) :=
  match lines with
  | [] => lret st
  | line :: rest =>
      let+ timestamp := get_log_timestamp line in
      match timestamp with
      | None => update_lines last_action_time rest st
      | Some ts =>
          if datetime_le ts last_action_time
          then update_lines last_action_time rest st
          else
            match check_for_trade_action line with
            | Some trade =>
                let '(self, num_trades_processed, num_trades_for_mule) := st in
                let+ self := process_trade self ts trade in
                update_lines last_action_time rest
                  (self, num_trades_processed + 1, num_trades_for_mule + 1)
            | None => update_lines last_action_time rest st
            end
      end
  end.

(** [for mule_name in mule_names], on [(self, num_trades_processed)]. *)
Fixpoint update_mules (eq_path log_name : string) (last_action_time : datetime)
    (mule_names : list string) (st : t * Z) : M (t * Z) :=
  match mule_names with
  | [] => ret st
  | mule_name :: rest =>
      let* log_path := lift_exn (make_log_path eq_path log_name mule_name) in
      let* f := gets (fun w => log_files w !! log_path) in
      match f with
      | None =>
          do* emit [(WARNING, "Can't find log file for " +:+ mule_name +:+ " at " +:+ log_path)] in
          update_mules eq_path log_name last_action_time rest st
      | Some lines =>
          do* emit [(INFO, "Processing " +:+ mule_name +:+ "'s log file...")] in
          let* r := lift_logged (update_lines last_action_time lines (fst st, snd st, 0)) in
          let '(self, num_trades_processed, num_trades_for_mule) := r in
          do* emit [(INFO, py_str num_trades_for_mule +:+ " new trades found for " +:+ mule_name)] in
          update_mules eq_path log_name last_action_time rest (self, num_trades_processed)
      end
  end.

(** [Inventory.update] *)
Definition update (self : t) : M t :=
  let eq_path := eq_path (config self) in
  let log_name := log_name (config self) in
  let mule_names := py_split "," (mule_names (config self)) in
  match last (History.timestamps (history self)) with
  | None => raise IndexError
  | Some last_action_time =>
      let* r := update_mules eq_path log_name last_action_time mule_names (self, 0) in
      let '(self, num_trades_processed) := r in
      do* emit [(INFO, py_str num_trades_processed +:+ " total new trades found since "
                       +:+ datetime_str last_action_time)] in
      write_new_trades self
  end.

(** The [__main__] block. *)
Definition main (config_file : string) : M t :=
  let* inventory_parser := init config_file in
  update inventory_parser.

End Scan.

End Inventory.

(* ===================================================================== *)
(** ** Vocabulary of the statements *)
(* ===================================================================== *)

(** A row from which both contracted columns can be read. *)
Definition readable (name_column count_column : nat) (r : row) : bool :=
  (Nat.max name_column count_column <? length r)%nat.

(** The name-column value of a row. *)
Definition row_name (name_column : nat) (r : row) : string :=
  nth name_column r EmptyString.

(** The count a readable row records ([0] where the cell is no number). *)
Definition row_count (count_column : nat) (r : row) : Z :=
  default 0 (py_int (nth count_column r EmptyString)).

(** The count a table records for the subjects selected by [P]: the sum
    over its readable rows whose name satisfies [P].  With
    [P := String.eqb s] this is the count of subject [s]; with
    [P := fun _ => true] it is the total of the table. *)
Fixpoint count_if (P : string -> bool) (name_column count_column : nat) (rows : list row) : Z :=
  match rows with
  | [] => 0
  | r :: rest =>
      (if readable name_column count_column r && P (row_name name_column r)
       then row_count count_column r else 0)
      + count_if P name_column count_column rest
  end.

(** The same selection on a dictionary of deltas. *)
Fixpoint dict_sum (P : string -> bool) (d : dict) : Z :=
  match d with
  | [] => 0
  | (k, v) :: d' => (if P k then v else 0) + dict_sum P d'
  end.

Definition dict_keys (d : dict) : list string := fst <$> d.

(** The widest row of a table. *)
Definition max_width (rows : list row) : nat :=
  foldr (fun r n => Nat.max (length r) n) 0%nat rows.

(** A row with its count increased by [delta]. *)
Definition bumped_row (count_column : nat) (r : row) (delta : Z) : row :=
  <[count_column := py_str (row_count count_column r + delta)]> r.

(** The row appended for a key: name and count at their columns, every
    other cell empty, [width] cells in all. *)
Definition appended_row (name_column count_column width : nat) (kv : string * Z) : row :=
  csv_cell <$> <[count_column := PInt kv.2]> (<[name_column := PStr kv.1]> (replicate width PNone)).

(** What the merge is to write for the row [r] that comes after the
    rows [earlier] (rows wide enough to be read): the count is increased
    when the name is a key of [deltas] that no earlier row carries. *)
Definition expected_row (name_column count_column : nat) (deltas : dict)
    (earlier : list row) (r : row) : row :=
  match dict_get deltas (row_name name_column r) with
  | Some delta =>
      if bool_decide (row_name name_column r ∈ row_name name_column <$> earlier)
      then r else bumped_row count_column r delta
  | None => r
  end.

(** Every key of [deltas] is reflected exactly once in the table the
    call of the merge leaves at [csv_path]: the call returns; the table
    holds, in input order and each once, the rows wide enough to be read,
    the first of them named by a key carrying the increment, then one
    appended row for each key that names none of them; and the mapping
    the call leaves holds exactly the keys that were appended, the others
    being consumed. *)
Definition merge_reflects_each_key_once (csv_path : string)
    (name_column count_column : nat) (deltas : dict) (w : World) : Prop :=
  exists (rows : list row) (left : dict) (w' : World) (kept appended : list row),
    csv_files w !! csv_path = Some rows
    /\ Inventory.add_counts_to_csv csv_path name_column count_column deltas w = (inr left, w')
    /\ csv_files w' !! csv_path = Some (kept ++ appended)
    /\ let wide := filter (fun r => readable name_column count_column r = true) rows in
       length kept = length wide
       /\ (forall i r, wide !! i = Some r ->
             kept !! i = Some (expected_row name_column count_column deltas (take i wide) r))
       /\ left = filter (fun kv => kv.1 ∉ row_name name_column <$> wide) deltas
       /\ appended = appended_row name_column count_column (max_width rows) <$> left.

(** Timestamps in non-decreasing order of insertion. *)
Fixpoint nondecreasing (l : list datetime) : bool :=
  match l with
  | [] => true
  | a :: l' =>
      match l' with
      | [] => true
      | b :: _ => datetime_le a b && nondecreasing l'
      end
  end.

(** The number of events whose subject satisfies [P]. *)
Fixpoint occurrences (P : string -> bool) (l : list (datetime * (string * string))) : Z :=
  match l with
  | [] => 0
  | e :: l' => (if P (snd (snd e)) then 1 else 0) + occurrences P l'
  end.

(** [\w+] matched the whole of [s]. *)
Fixpoint all_word (s : string) : bool :=
  match s with
  | EmptyString => true
  | String c s' => is_word_char c && all_word s'
  end.

(** [r] is empty or begins with a character that is not a word
    character: a greedy [\w+] stops in front of it. *)
Definition starts_nonword (r : string) : bool :=
  match r with
  | EmptyString => true
  | String c _ => negb (is_word_char c)
  end.

(** [sep in s] *)
Fixpoint occurs_in (sep s : string) : bool :=
  match strip_prefix sep s with
  | Some _ => true
  | None =>
      match s with
      | EmptyString => false
      | String _ s' => occurs_in sep s'
      end
  end.

(** A trade event: the timestamp of its line and the match [(PLAYER, ITEM)]. *)
Abbreviation trade_event := (datetime * (string * string))%type.

Definition apply_trade (self : Inventory.t) (e : trade_event) : Inventory.t :=
  fst (Inventory.process_trade self (fst e) (snd e)).

Definition apply_trades (self : Inventory.t) (l : list trade_event) : Inventory.t :=
  fold_left apply_trade l self.

Section ScanVocabulary.
Context `{PyLib}.

(** The line is a trade line with timestamp [ts] and match [tr]. *)
Definition trade_line (line : string) (e : trade_event) : Prop :=
  fst (get_log_timestamp line) = Some (fst e)
  /\ check_for_trade_action line = Some (snd e).

(** The events a scan with cutoff [last_action_time] extracts from the
    lines of one log. *)
Fixpoint new_trades (last_action_time : datetime) (lines : list string) : list trade_event :=
  match lines with
  | [] => []
  | line :: rest =>
      match fst (get_log_timestamp line) with
      | None => new_trades last_action_time rest
      | Some ts =>
          if datetime_le ts last_action_time then new_trades last_action_time rest
          else match check_for_trade_action line with
               | Some tr => (ts, tr) :: new_trades last_action_time rest
               | None => new_trades last_action_time rest
               end
      end
  end.

(** The log paths of the sources, in scanning order. *)
Fixpoint mule_paths (eq_path log_name : string) (mule_names : list string) : exn + list string :=
  match mule_names with
  | [] => inr []
  | m :: rest =>
      match make_log_path eq_path log_name m with
      | inl e => inl e
      | inr p =>
          match mule_paths eq_path log_name rest with
          | inl e => inl e
          | inr ps => inr (p :: ps)
          end
      end
  end.

(** The events a scan extracts from the logs at [paths], in order;
    a path without a file contributes none. *)
Fixpoint pending_trades (logs : gmap string (list string)) (last_action_time : datetime)
    (paths : list string) : list trade_event :=
  match paths with
  | [] => []
  | p :: rest =>
      match logs !! p with
      | None => []
      | Some lines => new_trades last_action_time lines
      end ++ pending_trades logs last_action_time rest
  end.

(** The lines of the logs at [paths], in scanning order. *)
Fixpoint scanned_lines (logs : gmap string (list string)) (paths : list string) : list string :=
  match paths with
  | [] => []
  | p :: rest => default [] (logs !! p) ++ scanned_lines logs rest
  end.

End ScanVocabulary.

(** The configuration [Inventory.__init__] resolves to. *)
Definition resolved_config (config_file : string) (w : World) : Config :=
  default _CONFIG_DEFAULTS (config_files w !! config_file).

(** [lines] appended to the log at [path]. *)
Definition append_log (path : string) (lines : list string) (w : World) : World :=
  {| config_files := config_files w;
     log_files := <[path := default [] (log_files w !! path) ++ lines]> (log_files w);
     csv_files := csv_files w; pickle_files := pickle_files w; diag := diag w |}.

(** What the table at [path] records for the subjects selected by [P];
    a table that does not exist records nothing. *)
Definition table_count (P : string -> bool) (path : string) (name_column count_column : nat)
    (w : World) : Z :=
  count_if P name_column count_column (default [] (csv_files w !! path)).

(** What the two inventory tables record together. *)
Definition recorded (P : string -> bool) (cfg : Config) (w : World) : Z :=
  table_count P (word_inventory cfg) Inventory._word_name_column Inventory._word_count_column w
  + table_count P (item_inventory cfg) Inventory._item_name_column Inventory._item_count_column w.

(** No double counting and no lost event: [w] is the store a run left,
    the trade lines [new], whose events are [events], are appended to the
    log at [path], and after the next run the two tables together record,
    for every selection [P] of subjects, as many more as there are
    selected events.  ([P := String.eqb s] is subject [s];
    [P := fun _ => true] is the total, [N] more for [N] lines.) *)
Definition counts_appended_trades `{PyLib} (config_file : string) (w : World)
    (path : string) (new : list string) (events : list trade_event) : Prop :=
  let cfg := resolved_config config_file w in
  let w' := (Inventory.main config_file (append_log path new w)).2 in
  forall P : string -> bool, recorded P cfg w' = recorded P cfg w + occurrences P events.

(** The checkpoint a run starts from: the pickled history, a fresh one
    where there is no checkpoint file, none where the file does not
    unpickle. *)
Definition loaded_history (cfg : Config) (w : World) : option History.t :=
  match pickle_files w !! inventory_pickle cfg with
  | Some (Pickled h) => Some h
  | Some Garbage => None
  | None => Some History.init
  end.

(* ===================================================================== *)
(** ** Sample data *)
(* ===================================================================== *)

Fixpoint assoc_string {A} (l : list (string * A)) (k : string) : option A :=
  match l with
  | [] => None
  | (k', v) :: l' => if String.eqb k' k then Some v else assoc_string l' k
  end.

(** A few stamps of the log format with the datetimes [strptime] gives. *)
Definition sample_stamps : list (string * datetime) :=
  [ ("[Mon Jan 06 20:15:33 2020]", mk_datetime 2020 1 6 20 15 33);
    ("[Mon Jan 06 20:16:00 2020]", mk_datetime 2020 1 6 20 16 0);
    ("[Tue Jan 07 09:00:00 2020]", mk_datetime 2020 1 7 9 0 0) ].

Definition sample_lib : PyLib :=
  {| strptime := fun text fmt =>
       if String.eqb fmt "[%a %b %d %H:%M:%S %Y]" then assoc_string sample_stamps text else None;
     os_path_join := fun a b => a +:+ "/" +:+ b |}.

Definition sample_config (mules : string) : Config :=
  {| eq_path := "logs"; mule_names := mules;
     word_inventory := "words.csv"; item_inventory := "items.csv";
     inventory_pickle := "history.pickle"; log_name := "eqlog_<NAME>.txt" |}.

Definition line_ring : string := "[Mon Jan 06 20:16:00 2020] Bob has offered you a Ring." +:+ newline.
Definition line_sword : string := "[Mon Jan 06 20:15:33 2020] Al has offered you a Sword." +:+ newline.
Definition line_sword_later : string := "[Mon Jan 06 20:16:00 2020] Al has offered you a Sword." +:+ newline.
Definition line_axe : string := "[Tue Jan 07 09:00:00 2020] Cy has offered you a Axe." +:+ newline.

Definition sample_world (mules : string) (logs : gmap string (list string))
    (csvs : gmap string (list row)) (pickles : gmap string pickle_file) : World :=
  {| config_files := {[ "config.cfg" := sample_config mules ]};
     log_files := logs; csv_files := csvs; pickle_files := pickles; diag := [] |}.

Definition sample_run (w : World) : (exn + Inventory.t) * World :=
  @Inventory.main sample_lib "config.cfg" w.

Definition items_header : row := ["Owner"; "Item"; "Count"].

Definition mule_log : string := "logs/eqlog_Mule.txt".
Definition devook_log : string := "logs/eqlog_Devook.txt".

(** One source with one trade line, an items table with its header row,
    an empty words table, no checkpoint yet. *)
Definition world_one_log : World :=
  sample_world "Mule" {[ mule_log := [line_ring] ]}
    {[ "items.csv" := [items_header]; "words.csv" := [] ]} ∅.

(** Two sources; the source scanned first holds the later trade. *)
Definition world_two_logs : World :=
  sample_world "Mule,Devook" {[ mule_log := [line_ring]; devook_log := [line_sword] ]}
    {[ "items.csv" := [items_header]; "words.csv" := [] ]} ∅.

(** The words table already records three of the subject [Ring]. *)
Definition world_ring_in_words : World :=
  sample_world "Mule" {[ mule_log := [line_ring] ]}
    {[ "items.csv" := [items_header]; "words.csv" := [[""; ""; "Ring"; "3"]] ]} ∅.

(** The items table exists and is empty. *)
Definition world_empty_items : World :=
  sample_world "Mule" {[ mule_log := [line_ring] ]}
    {[ "items.csv" := []; "words.csv" := [] ]} ∅.

(** The checkpoint file does not unpickle. *)
Definition world_corrupt_checkpoint : World :=
  sample_world "Mule" {[ mule_log := [line_ring] ]}
    {[ "items.csv" := [items_header]; "words.csv" := [] ]} {[ "history.pickle" := Garbage ]}.

(** An items table with a row too short to hold a count. *)
Definition world_short_row : World :=
  sample_world "Mule" ∅
    {[ "items.csv" := [items_header; ["Bob"; "Ring"]; ["Al"; "Sword"; "3"]] ]} ∅.

(* ===================================================================== *)
(** ** Checks of the primitives on examples *)
(* ===================================================================== *)

Example split_ex1 :
  py_split "," "Libarian,Mule,Freeport,Devook" = ["Libarian"; "Mule"; "Freeport"; "Devook"].
Proof. reflexivity. Qed.

Example split_ex2 :
  py_split "<NAME>" "eqlog_<NAME>_P1999Teal.txt" = ["eqlog_"; "_P1999Teal.txt"]
  /\ py_split "<NAME>" "a<NAME>" = ["a"; ""] /\ py_split "," "" = [""].
Proof. repeat split. Qed.

Example int_ex :
  py_int "007" = Some 7 /\ py_int "-0" = Some 0 /\ py_int " 3" = Some 3
  /\ py_int "+3" = Some 3 /\ py_int "1_0" = Some 10 /\ py_int "3 " = Some 3
  /\ py_int "" = None /\ py_int "-" = None /\ py_int "x" = None /\ py_int "- 3" = None
  /\ py_int "_1" = None /\ py_int "1_" = None /\ py_int "1__0" = None /\ py_int "3 4" = None
  /\ py_int "+-3" = None /\ py_int "3.0" = None
  /\ py_str 0 = "0" /\ py_str (-12) = "-12".
Proof. repeat split. Qed.

(** A count padded with a blank or carrying a plus sign is read by [int]
    and incremented. *)
Example merge_reads_padded_count :
  Inventory.written (Inventory.merge 1 2 [["Bob"; "Ring"; " 3"]; ["Al"; "Axe"; "+3"]]
                       [("Ring", 2); ("Axe", 1)]).2
  = [["Bob"; "Ring"; "5"]; ["Al"; "Axe"; "4"]].
Proof. reflexivity. Qed.

Example trade_ex1 : check_for_trade_action line_ring = Some ("Bob", "Ring").
Proof. reflexivity. Qed.

Example trade_ex2 :
  check_for_trade_action "[Mon Jan 06 20:15:33 2020] Bob has offered you a Rune of Ro." = None
  /\ check_for_trade_action "[Mon Jan 06 20:15:33 2020]  Bob has offered you a Ring." = None.
Proof. split; reflexivity. Qed.

Example pattern_ex :
  matches_word_pattern "Rune of Ro" = true /\ matches_word_pattern "Spell: Gate" = true
  /\ matches_word_pattern "Velishoul's Tome Pgx 12" = true
  /\ matches_word_pattern "Ring" = false /\ matches_word_pattern "Rune of " = false.
Proof. repeat split. Qed.

Example datetime_str_ex : datetime_str (mk_datetime 1900 1 1 0 0 0) = "1900-01-01 00:00:00".
Proof. reflexivity. Qed.

(* ===================================================================== *)
(** ** Facts about the primitives *)
(* ===================================================================== *)

Lemma scan_digits_uint (d : Decimal.uint) (acc : Z) :
  scan_digits acc false (NilEmpty.string_of_uint d) = Some (uint_value d acc, EmptyString).
Proof.
  revert acc. induction d; intros acc; simpl; try done;
    rewrite ?Z.add_0_r; apply IHd.
Qed.

Lemma uint_value_acc (d : Decimal.uint) (acc : positive) :
  uint_value d (Z.pos acc) = Z.pos (Pos.of_uint_acc d acc).
Proof.
  revert acc. induction d; intros acc; simpl; try done;
    rewrite <- IHd; f_equal; lia.
Qed.

Lemma uint_value_of_uint (d : Decimal.uint) : uint_value d 0 = Z.of_N (Pos.of_uint d).
Proof.
  induction d; simpl; try done; try exact IHd;
    change (10 * 0 + _) with (Z.pos 1) || idtac; apply uint_value_acc.
Qed.

Lemma string_of_uint_nonnil (d : Decimal.uint) :
  d <> Decimal.Nil -> NilZero.string_of_uint d = NilEmpty.string_of_uint d.
Proof. by destruct d. Qed.

Lemma string_of_uint_head (d : Decimal.uint) :
  d <> Decimal.Nil ->
  exists c s, NilEmpty.string_of_uint d = String c s /\ is_Some (digit_value c).
Proof. destruct d; [done|..]; intros _; eexists _, _; (split; [reflexivity | by eexists]). Qed.

Lemma py_int_digit_head (c : ascii) (s : string) :
  is_Some (digit_value c) -> py_int (String c s) = py_int_unsigned (String c s).
Proof.
  intros [d Hd]. unfold py_int. cbn [skip_space].
  destruct c as [[] [] [] [] [] [] [] []]; try discriminate Hd; reflexivity.
Qed.

Lemma py_int_unsigned_pos (p : positive) :
  py_int_unsigned (NilEmpty.string_of_uint (Pos.to_uint p)) = Some (Z.pos p).
Proof.
  pose proof (scan_digits_uint (Pos.to_uint p) 0) as Hscan.
  rewrite uint_value_of_uint, Unsigned.of_to in Hscan.
  destruct (string_of_uint_head (Pos.to_uint p) (Unsigned.to_uint_nonnil p))
    as (c & s & Hcs & [d Hd]).
  rewrite Hcs in Hscan |- *. unfold py_int_unsigned. by rewrite Hd, Hscan.
Qed.

Lemma py_int_str (z : Z) : py_int (py_str z) = Some z.
Proof.
  destruct z as [|p|p]; [done| |]; unfold py_str; cbn [Z.to_int NilZero.string_of_int];
    rewrite string_of_uint_nonnil by apply Unsigned.to_uint_nonnil.
  - destruct (string_of_uint_head (Pos.to_uint p) (Unsigned.to_uint_nonnil p))
      as (c & s & Hcs & Hc).
    pose proof (py_int_unsigned_pos p) as Hp. rewrite Hcs in Hp |- *.
    by rewrite py_int_digit_head.
  - change (py_int (String "-" (NilEmpty.string_of_uint (Pos.to_uint p))))
      with (Z.opp <$> py_int_unsigned (NilEmpty.string_of_uint (Pos.to_uint p))).
    by rewrite py_int_unsigned_pos.
Qed.

Lemma str_take_length (n : nat) (s : string) :
  String.length (str_take n s) = Nat.min n (String.length s).
Proof.
  revert s; induction n as [|n IH]; intros [|c s]; simpl; auto.
Qed.

Lemma string_app_length (a b : string) :
  String.length (a +:+ b) = (String.length a + String.length b)%nat.
Proof. induction a as [|c a IH]; simpl; auto. Qed.

(** The temporary file is never the table itself. *)
Lemma out_file_name_neq (csv_path : string) : Inventory.out_file_name csv_path <> csv_path.
Proof.
  intros Heq. apply (f_equal String.length) in Heq.
  unfold Inventory.out_file_name, str_drop_last in Heq.
  rewrite string_app_length, str_take_length in Heq. simpl in Heq. lia.
Qed.
(** ** Dictionaries *)

Lemma dict_get_None (d : dict) (k : string) :
  dict_get d k = None <-> k ∉ dict_keys d.
Proof.
  induction d as [|[k' v] d IH]; simpl.
  - split; [intros _; apply not_elem_of_nil | done].
  - rewrite not_elem_of_cons. destruct (String.eqb_spec k' k) as [->|Hne].
    + split; [discriminate | intros [Hk _]; done].
    + rewrite IH. split; [intros Hk; split; [congruence | done] | intros [_ Hk]; done].
Qed.

Lemma dict_get_Some_elem (d : dict) (k : string) (v : Z) :
  dict_get d k = Some v -> k ∈ dict_keys d.
Proof.
  intros Hg. destruct (decide (k ∈ dict_keys d)) as [|Hn]; [done|].
  apply dict_get_None in Hn. congruence.
Qed.

Lemma filter_all {A} (P : A -> Prop) `{!forall x, Decision (P x)} (l : list A) :
  Forall P l -> filter P l = l.
Proof.
  induction 1 as [|x l Hx _ IH]; [done|].
  by rewrite filter_cons_True, IH.
Qed.

Lemma dict_pop_filter (d : dict) (k : string) :
  NoDup (dict_keys d) -> dict_pop d k = filter (fun kv => kv.1 <> k) d.
Proof.
  induction d as [|[k' v] d IH]; [done|].
  cbn [dict_pop dict_keys fmap list_fmap fst].
  intros Hnd. apply NoDup_cons in Hnd as [Hk' Hnd].
  destruct (String.eqb_spec k' k) as [->|Hne].
  - rewrite filter_cons_False by (simpl; tauto).
    symmetry. apply filter_all.
    apply Forall_forall. intros [k'' v'] Hin. simpl. intros ->.
    apply Hk'. apply list_elem_of_fmap. by exists (k, v').
  - rewrite filter_cons_True by done. by rewrite IH.
Qed.

Lemma dict_keys_filter_NoDup (P : string * Z -> Prop) `{!forall x, Decision (P x)} (d : dict) :
  NoDup (dict_keys d) -> NoDup (dict_keys (filter P d)).
Proof.
  induction d as [|[k v] d IH]; [done|].
  cbn [dict_keys fmap list_fmap fst].
  intros Hnd. apply NoDup_cons in Hnd as [Hk Hnd].
  destruct (decide (P (k, v))).
  - rewrite filter_cons_True by done. simpl. apply NoDup_cons. split; [|by apply IH].
    intros Hin. apply Hk. unfold dict_keys in *.
    apply list_elem_of_fmap in Hin as [[k' v'] [-> Hin]].
    apply list_elem_of_filter in Hin as [_ Hin].
    apply list_elem_of_fmap. by exists (k', v').
  - rewrite filter_cons_False by done. by apply IH.
Qed.

Lemma dict_get_filter (P : string -> Prop) `{!forall x, Decision (P x)} (d : dict) (k : string) :
  dict_get (filter (fun kv => P kv.1) d) k = if decide (P k) then dict_get d k else None.
Proof.
  induction d as [|[k' v] d IH].
  - by destruct (decide (P k)).
  - cbn [dict_get]. destruct (decide (P k')) as [Hp|Hp].
    + rewrite filter_cons_True by done. simpl.
      destruct (String.eqb_spec k' k) as [->|Hne]; [by destruct (decide (P k))|apply IH].
    + rewrite filter_cons_False by done.
      destruct (String.eqb_spec k' k) as [->|Hne]; [rewrite IH; by destruct (decide (P k))|apply IH].
Qed.

Lemma dict_get_pop_ne (d : dict) (k k' : string) :
  k' <> k -> dict_get (dict_pop d k) k' = dict_get d k'.
Proof.
  intros Hne. induction d as [|[k0 v] d IH]; [done|].
  cbn [dict_pop dict_get].
  destruct (String.eqb_spec k0 k) as [->|Hk0].
  - destruct (String.eqb_spec k k'); [congruence | done].
  - cbn [dict_get]. by rewrite IH.
Qed.

Lemma dict_get_pop_eq (d : dict) (k : string) :
  NoDup (dict_keys d) -> dict_get (dict_pop d k) k = None.
Proof.
  induction d as [|[k0 v] d IH]; [done|].
  cbn [dict_pop dict_keys fmap list_fmap fst].
  intros Hnd. apply NoDup_cons in Hnd as [Hk0 Hnd].
  destruct (String.eqb_spec k0 k) as [->|Hne].
  - by apply dict_get_None.
  - cbn [dict_get]. destruct (String.eqb_spec k0 k); [done|]. by apply IH.
Qed.

Lemma dict_pop_NoDup (d : dict) (k : string) :
  NoDup (dict_keys d) -> NoDup (dict_keys (dict_pop d k)).
Proof.
  intros Hnd. rewrite dict_pop_filter by done.
  by apply (dict_keys_filter_NoDup (fun kv => kv.1 <> k)).
Qed.

Lemma dict_sum_pop (P : string -> bool) (d : dict) (k : string) (v : Z) :
  dict_get d k = Some v ->
  dict_sum P (dict_pop d k) = dict_sum P d - (if P k then v else 0).
Proof.
  induction d as [|[k' v'] d IH]; simpl; [discriminate|].
  destruct (String.eqb_spec k' k) as [->|Hne].
  - intros [= ->]. lia.
  - intros Hg. simpl. rewrite IH by done. lia.
Qed.

Lemma dict_sum_set (P : string -> bool) (d : dict) (k : string) (v : Z) :
  dict_sum P (dict_set d k v)
  = dict_sum P d + (if P k then v - default 0 (dict_get d k) else 0).
Proof.
  induction d as [|[k' v'] d IH]; simpl.
  - destruct (P k); lia.
  - destruct (String.eqb_spec k' k) as [->|Hne]; simpl.
    + destruct (P k); lia.
    + rewrite IH. lia.
Qed.

Lemma dict_sum_eqb (d : dict) (k : string) :
  NoDup (dict_keys d) -> dict_sum (String.eqb k) d = default 0 (dict_get d k).
Proof.
  induction d as [|[k' v] d IH]; simpl; [done|].
  intros Hnd. apply NoDup_cons in Hnd as [Hk' Hnd].
  rewrite (String.eqb_sym k k').
  destruct (String.eqb_spec k' k) as [->|Hne]; simpl.
  - assert (Hz : dict_sum (String.eqb k) d = 0).
    { rewrite IH by done. apply dict_get_None in Hk'. by rewrite Hk'. }
    lia.
  - rewrite IH by done. lia.
Qed.
(** ** The tabular merge: rows *)

Import Inventory.

Lemma count_if_app (P : string -> bool) (nc cc : nat) (l1 l2 : list row) :
  count_if P nc cc (l1 ++ l2) = count_if P nc cc l1 + count_if P nc cc l2.
Proof. induction l1 as [|r l1 IH]; simpl; [done|]. rewrite IH. lia. Qed.

Lemma readable_spec (nc cc : nat) (r : row) :
  readable nc cc r = true <-> (nc < length r /\ cc < length r)%nat.
Proof. unfold readable. rewrite Nat.ltb_lt. lia. Qed.

Lemma readable_leb (nc cc : nat) (r : row) :
  (length r <=? Nat.max nc cc)%nat = negb (readable nc cc r).
Proof.
  unfold readable. destruct (Nat.leb_spec (length r) (Nat.max nc cc));
    destruct (Nat.ltb_spec (Nat.max nc cc) (length r)); simpl; auto; lia.
Qed.

Lemma bumped_row_length (cc : nat) (r : row) (delta : Z) :
  length (bumped_row cc r delta) = length r.
Proof. apply length_insert. Qed.

Lemma bumped_row_name (nc cc : nat) (r : row) (delta : Z) :
  nc <> cc -> row_name nc (bumped_row cc r delta) = row_name nc r.
Proof.
  intros Hne. unfold row_name, bumped_row.
  rewrite !nth_lookup, list_lookup_insert_ne by done. done.
Qed.

Lemma bumped_row_count (cc : nat) (r : row) (delta : Z) :
  (cc < length r)%nat ->
  row_count cc (bumped_row cc r delta) = row_count cc r + delta.
Proof.
  intros Hlt. unfold row_count at 1, bumped_row.
  rewrite nth_lookup, list_lookup_insert_eq by done. simpl.
  by rewrite py_int_str.
Qed.

(** The three outcomes of one iteration. *)
Lemma merge_row_narrow (nc cc : nat) (st : merge_state) (r : row) :
  readable nc cc r = false ->
  merge_row nc cc st r =
    (None, {| num_columns := Nat.max (length r) (num_columns st);
              new_counts := new_counts st; written := written st;
              emitted := emitted st ++
                [(WARNING, "'" +:+ py_join "," r +:+ "' has too few columns - can't read it.")] |}).
Proof. intros Hr. unfold merge_row. by rewrite readable_leb, Hr. Qed.

Lemma merge_row_other (nc cc : nat) (st : merge_state) (r : row) :
  readable nc cc r = true ->
  dict_get (new_counts st) (row_name nc r) = None ->
  merge_row nc cc st r =
    (None, {| num_columns := Nat.max (length r) (num_columns st);
              new_counts := new_counts st; written := written st ++ [r];
              emitted := emitted st |}).
Proof.
  intros Hr Hg. unfold merge_row. rewrite readable_leb, Hr. simpl.
  unfold row_name in Hg. by rewrite Hg.
Qed.

Lemma merge_row_match (nc cc : nat) (st : merge_state) (r : row) (delta : Z) :
  readable nc cc r = true ->
  dict_get (new_counts st) (row_name nc r) = Some delta ->
  merge_row nc cc st r =
    match py_int (nth cc r EmptyString) with
    | None =>
        (Some ValueError,
         {| num_columns := Nat.max (length r) (num_columns st);
            new_counts := new_counts st; written := written st;
            emitted := emitted st ++
              [(INFO, "Found " +:+ row_name nc r +:+ " is csv. Adding " +:+ py_str delta +:+ " to count.")] |})
    | Some c =>
        (None,
         {| num_columns := Nat.max (length r) (num_columns st);
            new_counts := dict_pop (new_counts st) (row_name nc r);
            written := written st ++ [bumped_row cc r delta];
            emitted := emitted st ++
              [(INFO, "Found " +:+ row_name nc r +:+ " is csv. Adding " +:+ py_str delta +:+ " to count.")] |})
    end.
Proof.
  intros Hr Hg. unfold merge_row. rewrite readable_leb, Hr. simpl.
  unfold row_name in *. rewrite Hg. unfold bumped_row, row_count.
  by destruct (py_int (nth cc r "")).
Qed.

(** Case analysis on one iteration that does not raise. *)
Lemma merge_row_inv (nc cc : nat) (st st' : merge_state) (r : row) :
  merge_row nc cc st r = (None, st') ->
  num_columns st' = Nat.max (length r) (num_columns st)
  /\ ((readable nc cc r = false /\ new_counts st' = new_counts st /\ written st' = written st)
      \/ (readable nc cc r = true /\ dict_get (new_counts st) (row_name nc r) = None
          /\ new_counts st' = new_counts st /\ written st' = written st ++ [r])
      \/ (exists delta c, readable nc cc r = true
          /\ dict_get (new_counts st) (row_name nc r) = Some delta
          /\ py_int (nth cc r EmptyString) = Some c
          /\ new_counts st' = dict_pop (new_counts st) (row_name nc r)
          /\ written st' = written st ++ [bumped_row cc r delta])).
Proof.
  destruct (readable nc cc r) eqn:Hr.
  - destruct (dict_get (new_counts st) (row_name nc r)) as [delta|] eqn:Hg.
    + rewrite (merge_row_match _ _ _ _ delta) by done.
      destruct (py_int (nth cc r "")) as [c|] eqn:Hc; [|discriminate].
      intros [= <-]. simpl. split; [done|]. right. right. by exists delta, c.
    + rewrite merge_row_other by done. intros [= <-]. simpl. split; [done|].
      right. left. done.
  - rewrite merge_row_narrow by done. intros [= <-]. simpl. split; [done|]. by left.
Qed.

Lemma count_if_single (P : string -> bool) (nc cc : nat) (r : row) :
  count_if P nc cc [r]
  = if readable nc cc r && P (row_name nc r) then row_count cc r else 0.
Proof. simpl. lia. Qed.

Lemma merge_row_count (P : string -> bool) (nc cc : nat) (st st' : merge_state) (r : row) :
  nc <> cc ->
  merge_row nc cc st r = (None, st') ->
  count_if P nc cc (written st') + dict_sum P (new_counts st')
  = count_if P nc cc (written st) + dict_sum P (new_counts st) + count_if P nc cc [r].
Proof.
  intros Hne Hm. apply merge_row_inv in Hm as [_ Hm].
  rewrite count_if_single.
  destruct Hm as [(Hr & -> & ->) | [(Hr & Hg & -> & ->) | (delta & c & Hr & Hg & Hc & -> & ->)]].
  - rewrite Hr. simpl. lia.
  - rewrite count_if_app, count_if_single. lia.
  - rewrite count_if_app, count_if_single.
    rewrite (dict_sum_pop P _ _ delta) by done.
    assert (Hr' : readable nc cc (bumped_row cc r delta) = true).
    { unfold readable in *. by rewrite bumped_row_length. }
    rewrite Hr', Hr, bumped_row_name by done.
    apply readable_spec in Hr as [_ Hcc].
    rewrite bumped_row_count by done. simpl.
    destruct (P (row_name nc r)); lia.
Qed.

Lemma merge_rows_count (P : string -> bool) (nc cc : nat) (rows : list row) (st st' : merge_state) :
  nc <> cc ->
  merge_rows nc cc rows st = (None, st') ->
  count_if P nc cc (written st') + dict_sum P (new_counts st')
  = count_if P nc cc (written st) + dict_sum P (new_counts st) + count_if P nc cc rows.
Proof.
  intros Hne. revert st. induction rows as [|r rows IH]; intros st.
  - simpl. intros [= <-]. lia.
  - cbn [merge_rows]. destruct (merge_row nc cc st r) as [[e|] st1] eqn:Hm; [discriminate|].
    intros Hrest. apply IH in Hrest. apply (merge_row_count P) in Hm; [|done].
    rewrite count_if_single in Hm. cbn [count_if]. lia.
Qed.

Lemma merge_rows_num_columns (nc cc : nat) (rows : list row) (st st' : merge_state) :
  merge_rows nc cc rows st = (None, st') ->
  num_columns st' = Nat.max (max_width rows) (num_columns st).
Proof.
  revert st. induction rows as [|r rows IH]; intros st.
  - simpl. by intros [= <-].
  - cbn [merge_rows]. destruct (merge_row nc cc st r) as [[e|] st1] eqn:Hm; [discriminate|].
    intros Hrest. apply IH in Hrest. apply merge_row_inv in Hm as [Hn _].
    rewrite Hrest, Hn. simpl. lia.
Qed.

(** Narrow rows only: nothing is consumed and nothing is written. *)
Lemma merge_rows_all_narrow (nc cc : nat) (rows : list row) (st : merge_state) :
  Forall (fun r => readable nc cc r = false) rows ->
  exists st', merge_rows nc cc rows st = (None, st')
    /\ new_counts st' = new_counts st /\ written st' = written st
    /\ num_columns st' = Nat.max (max_width rows) (num_columns st).
Proof.
  intros Hall. revert st. induction Hall as [|r rows Hr _ IH]; intros st.
  - exists st. simpl. done.
  - cbn [merge_rows]. rewrite merge_row_narrow by done.
    destruct (IH {| num_columns := Nat.max (length r) (num_columns st);
                    new_counts := new_counts st; written := written st;
                    emitted := emitted st ++
                      [(WARNING, "'" +:+ py_join "," r +:+ "' has too few columns - can't read it.")] |})
      as (st' & Hst' & Hd & Hw & Hn).
    exists st'. simpl in *. rewrite Hst', Hd, Hw, Hn. repeat split; try done. lia.
Qed.

(** ** The tabular merge: appended rows *)

Lemma new_row_ok (nc cc n : nat) (name : string) (count : Z) :
  (Nat.max nc cc < n)%nat ->
  exists cells, new_row nc cc n name count = inr cells
    /\ csv_cell <$> cells = appended_row nc cc n (name, count).
Proof.
  intros Hlt. unfold new_row. rewrite length_insert, length_replicate.
  destruct (Nat.leb_spec n nc); [lia|]. destruct (Nat.leb_spec n cc); [lia|].
  eexists. split; [done|]. done.
Qed.

Lemma new_row_fail (nc cc n : nat) (name : string) (count : Z) :
  (n <= Nat.max nc cc)%nat -> new_row nc cc n name count = inl IndexError.
Proof.
  intros Hle. unfold new_row. rewrite length_insert, length_replicate.
  destruct (Nat.leb_spec n nc); [done|]. destruct (Nat.leb_spec n cc); [done|]. lia.
Qed.

Lemma appended_row_length (nc cc n : nat) (kv : string * Z) :
  length (appended_row nc cc n kv) = n.
Proof. unfold appended_row. by rewrite length_fmap, !length_insert, length_replicate. Qed.

Lemma appended_row_name (nc cc n : nat) (kv : string * Z) :
  nc <> cc -> (nc < n)%nat -> row_name nc (appended_row nc cc n kv) = kv.1.
Proof.
  intros Hne Hlt. unfold row_name, appended_row.
  rewrite nth_lookup, list_lookup_fmap, list_lookup_insert_ne by done.
  rewrite list_lookup_insert_eq by (by rewrite length_replicate). done.
Qed.

Lemma appended_row_count (nc cc n : nat) (kv : string * Z) :
  (cc < n)%nat -> row_count cc (appended_row nc cc n kv) = kv.2.
Proof.
  intros Hlt. unfold row_count, appended_row.
  rewrite nth_lookup, list_lookup_fmap.
  rewrite list_lookup_insert_eq by (by rewrite length_insert, length_replicate).
  simpl. by rewrite py_int_str.
Qed.

Lemma append_rows_ok (nc cc : nat) (remaining : dict) (st : merge_state) :
  (Nat.max nc cc < num_columns st)%nat ->
  exists st', append_rows nc cc remaining st = (None, st')
    /\ num_columns st' = num_columns st /\ new_counts st' = new_counts st
    /\ written st' = written st ++ (appended_row nc cc (num_columns st) <$> remaining).
Proof.
  intros Hlt. revert st Hlt. induction remaining as [|[name count] rest IH]; intros st Hlt.
  - exists st. simpl. by rewrite app_nil_r.
  - cbn [append_rows].
    destruct (new_row_ok nc cc _ name count Hlt) as (cells & -> & Hcells).
    rewrite Hcells.
    edestruct IH as (st' & Hst' & Hn & Hd & Hw); [|rewrite Hst'].
    { simpl. exact Hlt. }
    exists st'. simpl in *. rewrite Hn, Hd, Hw, <- app_assoc. done.
Qed.

Lemma append_rows_fail (nc cc : nat) (remaining : dict) (st : merge_state) :
  (num_columns st <= Nat.max nc cc)%nat -> remaining <> [] ->
  append_rows nc cc remaining st = (Some IndexError, st).
Proof.
  intros Hle Hne. destruct remaining as [|[name count] rest]; [done|].
  cbn [append_rows]. by rewrite new_row_fail.
Qed.

Lemma append_rows_inv (nc cc : nat) (remaining : dict) (st st' : merge_state) :
  append_rows nc cc remaining st = (None, st') ->
  new_counts st' = new_counts st
  /\ written st' = written st ++ (appended_row nc cc (num_columns st) <$> remaining)
  /\ (remaining <> [] -> (Nat.max nc cc < num_columns st)%nat).
Proof.
  intros Ha. destruct (Nat.le_gt_cases (num_columns st) (Nat.max nc cc)) as [Hle|Hlt].
  - destruct remaining as [|kv rest].
    + simpl in Ha. injection Ha as <-. by rewrite app_nil_r.
    + rewrite append_rows_fail in Ha by done. discriminate.
  - destruct (append_rows_ok nc cc remaining st Hlt) as (st1 & Hst1 & _ & Hd & Hw).
    rewrite Hst1 in Ha. injection Ha as <-. done.
Qed.

Lemma count_if_appended (P : string -> bool) (nc cc n : nat) (d : dict) :
  nc <> cc -> (Nat.max nc cc < n)%nat ->
  count_if P nc cc (appended_row nc cc n <$> d) = dict_sum P d.
Proof.
  intros Hne Hlt. induction d as [|[k v] d IH]; [done|].
  rewrite fmap_cons. cbn [count_if dict_sum].
  assert (Hr : readable nc cc (appended_row nc cc n (k, v)) = true).
  { apply readable_spec. rewrite appended_row_length. lia. }
  rewrite Hr, appended_row_name, appended_row_count by lia.
  simpl. by rewrite IH.
Qed.

(** The merge as a whole preserves what the table and the deltas record
    together, for any selection of subjects. *)
Lemma merge_count (P : string -> bool) (nc cc : nat) (rows : list row) (deltas : dict)
    (st : merge_state) :
  nc <> cc ->
  merge nc cc rows deltas = (None, st) ->
  count_if P nc cc (written st) = count_if P nc cc rows + dict_sum P deltas.
Proof.
  intros Hne. unfold merge.
  destruct (merge_rows nc cc rows _) as [[e|] st1] eqn:Hrows; [discriminate|].
  intros Happ. apply (merge_rows_count P) in Hrows; [|done]. simpl in Hrows.
  apply append_rows_inv in Happ as (_ & -> & Hwide).
  rewrite count_if_app.
  destruct (new_counts st1) as [|kv rest] eqn:Hd.
  - simpl in *. lia.
  - rewrite count_if_appended by (try done; by apply Hwide).
    lia.
Qed.
Lemma filter_ext_elem {A} (P Q : A -> Prop) `{!forall x, Decision (P x), !forall x, Decision (Q x)}
    (l : list A) :
  (forall x, x ∈ l -> P x <-> Q x) -> filter P l = filter Q l.
Proof.
  induction l as [|x l IH]; intros Hext; [done|].
  rewrite !filter_cons.
  assert (Hx : P x <-> Q x) by (apply Hext; left).
  rewrite IH by (intros y Hy; apply Hext; by right).
  destruct (decide (P x)), (decide (Q x)); tauto.
Qed.

Lemma max_width_narrow (nc cc : nat) (rows : list row) :
  (max_width rows <= Nat.max nc cc)%nat -> Forall (fun r => readable nc cc r = false) rows.
Proof.
  induction rows as [|r rows IH]; simpl; intros Hle; constructor.
  - unfold readable. apply Nat.ltb_ge. lia.
  - apply IH. lia.
Qed.

Lemma max_width_readable (nc cc : nat) (rows : list row) :
  Forall (fun r => readable nc cc r = true) rows -> rows <> [] ->
  (Nat.max nc cc < max_width rows)%nat.
Proof.
  intros Hall Hne. destruct Hall as [|r rows Hr _]; [done|].
  simpl. unfold readable in Hr. apply Nat.ltb_lt in Hr. lia.
Qed.

Lemma expected_row_cons_other (nc cc : nat) (deltas : dict) (r : row) (earlier : list row) (r' : row) :
  dict_get deltas (row_name nc r) = None ->
  expected_row nc cc deltas (r :: earlier) r' = expected_row nc cc deltas earlier r'.
Proof.
  intros Hg. unfold expected_row.
  destruct (dict_get deltas (row_name nc r')) eqn:Hg'; [|done].
  rewrite fmap_cons. erewrite bool_decide_ext; [done|].
  rewrite elem_of_cons. split; [intros [Heq | ?]; [congruence | done] | tauto].
Qed.

Lemma expected_row_cons_pop (nc cc : nat) (deltas : dict) (r : row) (delta : Z)
    (earlier : list row) (r' : row) :
  NoDup (dict_keys deltas) ->
  dict_get deltas (row_name nc r) = Some delta ->
  expected_row nc cc (dict_pop deltas (row_name nc r)) earlier r'
  = expected_row nc cc deltas (r :: earlier) r'.
Proof.
  intros Hnd Hg. unfold expected_row.
  destruct (decide (row_name nc r' = row_name nc r)) as [Heq|Hne].
  - rewrite Heq, dict_get_pop_eq by done. rewrite Hg, fmap_cons.
    rewrite bool_decide_true; [done | left].
  - rewrite dict_get_pop_ne by done.
    destruct (dict_get deltas (row_name nc r')); [|done].
    rewrite fmap_cons. erewrite bool_decide_ext; [done|].
    rewrite elem_of_cons. split; [tauto | intros [? | ?]; [done | done]].
Qed.

Lemma expected_row_first (nc cc : nat) (deltas : dict) (r : row) :
  expected_row nc cc deltas [] r
  = match dict_get deltas (row_name nc r) with
    | Some delta => bumped_row cc r delta
    | None => r
    end.
Proof.
  unfold expected_row. destruct (dict_get deltas (row_name nc r)); [|done].
  rewrite bool_decide_false; [done | apply not_elem_of_nil].
Qed.

(** On a table of readable rows whose matched rows carry integer counts,
    the row loop completes; its output follows the input position by
    position and the keys left are those that name no row. *)
Lemma merge_rows_positional (nc cc : nat) (rows : list row) (st : merge_state) :
  NoDup (dict_keys (new_counts st)) ->
  Forall (fun r => readable nc cc r = true) rows ->
  (forall r, r ∈ rows -> is_Some (dict_get (new_counts st) (row_name nc r)) ->
             is_Some (py_int (nth cc r EmptyString))) ->
  exists st' kept,
    merge_rows nc cc rows st = (None, st')
    /\ written st' = written st ++ kept
    /\ length kept = length rows
    /\ (forall i r, rows !! i = Some r ->
          kept !! i = Some (expected_row nc cc (new_counts st) (take i rows) r))
    /\ new_counts st' = filter (fun kv => kv.1 ∉ row_name nc <$> rows) (new_counts st).
Proof.
  intros Hnd Hall. revert st Hnd.
  induction Hall as [|r rows Hr _ IH]; intros st Hnd Hint.
  - exists st, []. simpl. rewrite app_nil_r. repeat split; try done.
    symmetry. apply filter_all, Forall_forall. intros kv _. apply not_elem_of_nil.
  - cbn [merge_rows].
    destruct (dict_get (new_counts st) (row_name nc r)) as [delta|] eqn:Hg.
    + destruct (Hint r) as [c Hc]; [left | by rewrite Hg |].
      rewrite (merge_row_match _ _ _ _ delta), Hc by done.
      set (st1 := {| num_columns := _; new_counts := dict_pop _ _; written := _; emitted := _ |}).
      destruct (IH st1) as (st' & kept & Hm & Hw & Hlen & Hpos & Hleft).
      { by apply dict_pop_NoDup. }
      { intros r' Hr' Hsome. apply Hint; [by right|].
        destruct (decide (row_name nc r' = row_name nc r)) as [Heq|Hne].
        - rewrite Heq in Hsome. simpl in Hsome.
          rewrite dict_get_pop_eq in Hsome by done. by destruct Hsome.
        - simpl in Hsome. by rewrite dict_get_pop_ne in Hsome. }
      exists st', (bumped_row cc r delta :: kept). rewrite Hm, Hw.
      cbn [written new_counts st1]. rewrite <- app_assoc.
      split; [done|]. split; [done|]. split; [simpl; by rewrite Hlen|]. split.
      * intros [|i] r' Hi; rewrite lookup_cons in Hi |- *.
        { injection Hi as <-. by rewrite firstn_O, expected_row_first, Hg. }
        rewrite firstn_cons, (Hpos i r' Hi).
        cbn [new_counts st1]. by rewrite (expected_row_cons_pop _ _ _ _ delta).
      * rewrite Hleft. cbn [new_counts st1]. rewrite dict_pop_filter by done.
        rewrite list_filter_filter. apply filter_ext_elem.
        intros kv _. rewrite fmap_cons, not_elem_of_cons. tauto.
    + rewrite merge_row_other by done.
      set (st1 := {| num_columns := _; new_counts := new_counts st; written := _; emitted := _ |}).
      destruct (IH st1) as (st' & kept & Hm & Hw & Hlen & Hpos & Hleft).
      { done. }
      { intros r' Hr' Hsome. apply Hint; [by right | done]. }
      exists st', (r :: kept). rewrite Hm, Hw.
      cbn [written new_counts st1]. rewrite <- app_assoc.
      split; [done|]. split; [done|]. split; [simpl; by rewrite Hlen|]. split.
      * intros [|i] r' Hi; rewrite lookup_cons in Hi |- *.
        { injection Hi as <-. by rewrite firstn_O, expected_row_first, Hg. }
        rewrite firstn_cons, (Hpos i r' Hi).
        cbn [new_counts st1]. by rewrite expected_row_cons_other.
      * rewrite Hleft. cbn [new_counts st1]. apply filter_ext_elem.
        intros [k v] Hkv. rewrite fmap_cons, not_elem_of_cons. simpl.
        split; [|tauto]. intros Hk. split; [|done]. intros ->.
        apply dict_get_None in Hg. apply Hg.
        apply list_elem_of_fmap. by exists (row_name nc r, v).
Qed.

(** ** [add_counts_to_csv] on the store *)

Lemma add_counts_to_csv_missing (p : string) (nc cc : nat) (deltas : dict) (w : World) :
  csv_files w !! p = None ->
  add_counts_to_csv p nc cc deltas w = (inl FileNotFoundError, w).
Proof.
  intros Hp. unfold add_counts_to_csv, bind, gets. by rewrite Hp.
Qed.

Lemma add_counts_to_csv_raise (p : string) (nc cc : nat) (deltas : dict) (w : World)
    (rows : list row) (e : exn) (st : merge_state) :
  csv_files w !! p = Some rows ->
  merge nc cc rows deltas = (Some e, st) ->
  add_counts_to_csv p nc cc deltas w =
    (inl e, set_csv_files <[out_file_name p := written st]> (add_diag (emitted st) w)).
Proof.
  intros Hp Hm. unfold add_counts_to_csv, bind, gets, modify, emit, modify, raise.
  rewrite Hp. simpl. rewrite Hm. simpl. unfold set_csv_files, add_diag. simpl.
  by rewrite insert_insert_eq.
Qed.

Lemma add_counts_to_csv_ok (p : string) (nc cc : nat) (deltas : dict) (w : World)
    (rows : list row) (st : merge_state) :
  csv_files w !! p = Some rows ->
  merge nc cc rows deltas = (None, st) ->
  add_counts_to_csv p nc cc deltas w =
    (inr (new_counts st),
     set_csv_files (fun m => <[p := written st]> (delete (out_file_name p) m))
       (add_diag (emitted st) w)).
Proof.
  intros Hp Hm. pose proof (out_file_name_neq p) as Hne.
  unfold add_counts_to_csv, bind, gets, modify, emit, modify, raise, ret.
  rewrite Hp. simpl. rewrite Hm. simpl.
  unfold os_remove, os_rename, bind, gets, modify. simpl.
  rewrite insert_insert_eq, lookup_insert_ne, Hp by done. simpl.
  rewrite lookup_delete_ne, lookup_insert_eq by done.
  unfold set_csv_files, add_diag. simpl. do 2 f_equal.
  apply map_eq. intros q.
  destruct (decide (q = p)) as [->|Hqp]; [by rewrite !lookup_insert_eq|].
  rewrite !lookup_insert_ne by congruence.
  destruct (decide (q = out_file_name p)) as [->|Hqo]; [by rewrite !lookup_delete_eq|].
  by rewrite !lookup_delete_ne, !lookup_insert_ne by congruence.
Qed.
(** ** Subjects captured by the trade pattern *)

Lemma span_word_all_word (s : string) : all_word (span_word s).1 = true.
Proof.
  induction s as [|c s IH]; simpl; [done|].
  destruct (is_word_char c) eqn:Hc; [|done].
  destruct (span_word s) as [w r]. simpl in *. by rewrite Hc.
Qed.

Lemma strip_prefix_all_word (lit s : string) :
  all_word s = true -> all_word lit = false -> strip_prefix lit s = None.
Proof.
  revert s. induction lit as [|a lit IH]; intros s Hs Hlit; [done|].
  destruct s as [|b s]; [done|]. simpl in *.
  destruct (Ascii.eqb_spec a b) as [->|]; [|done].
  apply andb_true_iff in Hs as [Hb Hs]. rewrite Hb in Hlit. by apply IH.
Qed.

Lemma all_word_no_pattern (s : string) :
  all_word s = true -> matches_word_pattern s = false.
Proof.
  intros Hs. unfold matches_word_pattern, match_literal_word, match_velishoul.
  by rewrite !(strip_prefix_all_word _ s Hs).
Qed.

Lemma match_trade_regex_item (s player item : string) :
  match_trade_regex s = Some (player, item) ->
  all_word item = true /\ item <> EmptyString.
Proof.
  unfold match_trade_regex.
  destruct (span_word s) as [pl r1]. destruct (String.eqb pl ""); [done|].
  destruct (strip_prefix " has offered you a " r1) as [r2|]; [|done].
  pose proof (span_word_all_word r2) as Hw.
  destruct (span_word r2) as [it r3]. destruct (String.eqb_spec it ""); [done|].
  destruct (strip_prefix "." r3); [|done].
  intros [= <- <-]. done.
Qed.

(** A subject taken from a trade line is a single word: it matches none
    of the word patterns, and it is not empty. *)
Lemma trade_item_plain (line player item : string) :
  check_for_trade_action line = Some (player, item) ->
  matches_word_pattern item = false /\ item <> EmptyString.
Proof.
  intros Hm. apply match_trade_regex_item in Hm as [Hw Hne].
  split; [by apply all_word_no_pattern | done].
Qed.

(** ** The classifier and counter *)

Lemma process_trade_history (self : t) (ts : datetime) (tr : string * string) :
  history (process_trade self ts tr).1 = History.record (history self) ts tr
  /\ config (process_trade self ts tr).1 = config self
  /\ history_path (process_trade self ts tr).1 = history_path self.
Proof. done. Qed.

(** A subject already in the words mapping goes to the words mapping. *)
Lemma process_trade_member (self : t) (ts : datetime) (tr : string * string) :
  dict_mem (words self) tr.2 = true ->
  words (process_trade self ts tr).1
    = dict_set (words self) tr.2 (default 0 (dict_get (words self) tr.2) + 1)
  /\ items (process_trade self ts tr).1 = items self.
Proof.
  intros Hmem. unfold process_trade. cbn [fst snd lbind tell lret].
  rewrite Hmem, orb_true_r. cbn [fst snd words items].
  unfold dict_mem in Hmem. by destruct (dict_get (words self) tr.2).
Qed.

(** A subject that matches no pattern and is not in the words mapping
    goes to the items mapping. *)
Lemma process_trade_plain (self : t) (ts : datetime) (tr : string * string) :
  matches_word_pattern tr.2 = false -> dict_mem (words self) tr.2 = false ->
  words (process_trade self ts tr).1 = words self
  /\ items (process_trade self ts tr).1
     = dict_set (items self) tr.2 (default 0 (dict_get (items self) tr.2) + 1).
Proof.
  intros Hpat Hmem. unfold process_trade. cbn [fst snd lbind tell lret].
  rewrite Hpat, Hmem. cbn [fst snd words items orb].
  by destruct (dict_get (items self) tr.2).
Qed.

Lemma apply_trades_app (self : t) (l1 l2 : list trade_event) :
  apply_trades self (l1 ++ l2) = apply_trades (apply_trades self l1) l2.
Proof. apply fold_left_app. Qed.

Lemma apply_trades_history (self : t) (l : list trade_event) :
  History.timestamps (history (apply_trades self l))
    = History.timestamps (history self) ++ (fst <$> l)
  /\ History.actions (history (apply_trades self l))
    = History.actions (history self) ++ ((fun e => e.2.1 +:+ " -> " +:+ e.2.2) <$> l)
  /\ config (apply_trades self l) = config self
  /\ history_path (apply_trades self l) = history_path self.
Proof.
  revert self. induction l as [|e l IH]; intros self.
  - simpl. by rewrite !app_nil_r.
  - destruct (IH (apply_trade self e)) as (Ht & Ha & Hc & Hp).
    unfold apply_trades in *. cbn [fold_left]. rewrite Ht, Ha, Hc, Hp.
    unfold apply_trade. cbn. rewrite <- !app_assoc. done.
Qed.

Lemma dict_set_keys_nonempty (d : dict) (k : string) (v : Z) :
  k <> EmptyString -> Forall (fun k => k <> EmptyString) (dict_keys d) ->
  Forall (fun k => k <> EmptyString) (dict_keys (dict_set d k v)).
Proof.
  intros Hk. induction d as [|[k' v'] d IH]; cbn [dict_set dict_keys fmap list_fmap fst].
  - intros _. by repeat constructor.
  - intros Hall. apply Forall_cons in Hall as [Hk' Hall].
    destruct (String.eqb k' k); constructor; try done. by apply IH.
Qed.

Lemma dict_any_nonempty (d : dict) :
  Forall (fun k => k <> EmptyString) (dict_keys d) ->
  dict_any d = match d with [] => false | _ => true end.
Proof.
  destruct d as [|[k v] d]; [done|]. cbn [dict_keys fmap list_fmap fst].
  intros Hall. apply Forall_cons in Hall as [Hk _].
  unfold dict_any. cbn [existsb fst]. by destruct (String.eqb_spec k "").
Qed.

Lemma dict_set_not_nil (d : dict) (k : string) (v : Z) : dict_set d k v <> [].
Proof. destruct d as [|[k' v'] d]; simpl; [done|]. by destruct (String.eqb k' k). Qed.

(** Events whose subjects are single words all go to the items mapping. *)
Lemma apply_trades_plain (P : string -> bool) (self : t) (l : list trade_event) :
  words self = [] ->
  Forall (fun e => matches_word_pattern e.2.2 = false /\ e.2.2 <> EmptyString) l ->
  Forall (fun k => k <> EmptyString) (dict_keys (items self)) ->
  words (apply_trades self l) = []
  /\ dict_sum P (items (apply_trades self l)) = dict_sum P (items self) + occurrences P l
  /\ Forall (fun k => k <> EmptyString) (dict_keys (items (apply_trades self l)))
  /\ (l <> [] -> items (apply_trades self l) <> []).
Proof.
  intros Hw Hall. revert self Hw. induction Hall as [|e l [Hpat Hne] _ IH]; intros self Hw Hkeys.
  - simpl. repeat split; try done. lia.
  - destruct (process_trade_plain self e.1 e.2 Hpat) as [Hw' Hi']; [by rewrite Hw|].
    fold (apply_trade self e) in Hw', Hi'.
    destruct (IH (apply_trade self e)) as (Hw2 & Hsum & Hk2 & Hnil).
    { by rewrite Hw'. }
    { rewrite Hi'. by apply dict_set_keys_nonempty. }
    unfold apply_trades in *. cbn [fold_left occurrences].
    split; [done|]. split; [|split; [done|]].
    + rewrite Hsum. rewrite Hi'. rewrite dict_sum_set.
      destruct (P e.2.2); lia.
    + intros _. destruct l as [|e' l]; [|by apply Hnil].
      cbn [fold_left]. rewrite Hi'. apply dict_set_not_nil.
Qed.

(** ** The scan *)

Lemma fst_lbind {A B} (m : logged A) (k : A -> logged B) :
  (lbind m k).1 = (k m.1).1.
Proof. unfold lbind. by destruct (k m.1). Qed.

Lemma add_diag_add_diag (l1 l2 : list log_record) (w : World) :
  add_diag l2 (add_diag l1 w) = add_diag (l1 ++ l2) w.
Proof. unfold add_diag. simpl. by rewrite app_assoc. Qed.

Lemma add_diag_nil (w : World) : add_diag [] w = w.
Proof. destruct w. unfold add_diag. simpl. by rewrite app_nil_r. Qed.

Section ScanFacts.
Context `{PyLib}.

Lemma update_lines_spec (last_action_time : datetime) (lines : list string)
    (self : t) (np nm : Z) :
  (update_lines last_action_time lines (self, np, nm)).1
  = (apply_trades self (new_trades last_action_time lines),
     np + Z.of_nat (length (new_trades last_action_time lines)),
     nm + Z.of_nat (length (new_trades last_action_time lines))).
Proof.
  revert self np nm. induction lines as [|line rest IH]; intros self np nm.
  - simpl. by rewrite !Z.add_0_r.
  - cbn [update_lines new_trades]. rewrite fst_lbind.
    destruct (get_log_timestamp line).1 as [ts|]; [|apply IH].
    destruct (datetime_le ts last_action_time); [apply IH|].
    destruct (check_for_trade_action line) as [tr|]; [|apply IH].
    rewrite fst_lbind, IH. cbn [length apply_trades fold_left].
    rewrite Nat2Z.inj_succ, <- !Z.add_assoc, !(Z.add_1_l (Z.of_nat _)). done.
Qed.

Lemma new_trades_app (last_action_time : datetime) (l1 l2 : list string) :
  new_trades last_action_time (l1 ++ l2)
  = new_trades last_action_time l1 ++ new_trades last_action_time l2.
Proof.
  induction l1 as [|line l1 IH]; [done|]. cbn [app new_trades].
  destruct (get_log_timestamp line).1 as [ts|]; [|done].
  destruct (datetime_le ts last_action_time); [done|].
  destruct (check_for_trade_action line); [|done]. by rewrite IH.
Qed.

(** Every extracted event is later than the cutoff and carries a
    single-word subject. *)
Lemma new_trades_after (last_action_time : datetime) (lines : list string) :
  Forall (fun e => datetime_le e.1 last_action_time = false
                   /\ matches_word_pattern e.2.2 = false /\ e.2.2 <> EmptyString)
         (new_trades last_action_time lines).
Proof.
  induction lines as [|line rest IH]; [constructor|]. cbn [new_trades].
  destruct (get_log_timestamp line).1 as [ts|]; [|done].
  destruct (datetime_le ts last_action_time) eqn:Hle; [done|].
  destruct (check_for_trade_action line) as [[player item]|] eqn:Hm; [|done].
  constructor; [|done]. split; [done|]. by apply (trade_item_plain line player).
Qed.

Lemma pending_trades_after (logs : gmap string (list string)) (last_action_time : datetime)
    (paths : list string) :
  Forall (fun e => datetime_le e.1 last_action_time = false
                   /\ matches_word_pattern e.2.2 = false /\ e.2.2 <> EmptyString)
         (pending_trades logs last_action_time paths).
Proof.
  induction paths as [|p rest IH]; [constructor|]. cbn [pending_trades].
  apply Forall_app. split; [|done].
  destruct (logs !! p); [apply new_trades_after | constructor].
Qed.

(** Lines that are all trade lines after the cutoff are all extracted. *)
Lemma new_trades_all (last_action_time : datetime) (lines : list string)
    (events : list trade_event) :
  Forall2 (fun line e => trade_line line e /\ datetime_le e.1 last_action_time = false)
          lines events ->
  new_trades last_action_time lines = events.
Proof.
  induction 1 as [|line e lines events [[Hts Htr] Hle] _ IH]; [done|].
  cbn [new_trades]. rewrite Hts, Hle, Htr, IH. by destruct e.
Qed.

(** The loop over the sources: the store is only read, and the locals
    end as the events of the logs, in order, dictate. *)
Lemma update_mules_spec (eq_path log_name : string) (last_action_time : datetime)
    (mules : list string) (self : t) (n : Z) (w : World) :
  exists d,
    update_mules eq_path log_name last_action_time mules (self, n) w
    = (match mule_paths eq_path log_name mules with
       | inl e => inl e
       | inr paths =>
           let events := pending_trades (log_files w) last_action_time paths in
           inr (apply_trades self events, n + Z.of_nat (length events))
       end, add_diag d w).
Proof.
  revert self n w. induction mules as [|m rest IH]; intros self n w.
  - exists []. cbn. by rewrite add_diag_nil, Z.add_0_r.
  - cbn [update_mules mule_paths]. unfold bind at 1.
    destruct (make_log_path eq_path log_name m) as [e|p].
    { exists []. cbn. by rewrite add_diag_nil. }
    cbn [lift_exn ret]. unfold bind at 1, gets at 1.
    destruct (log_files w !! p) as [lines|] eqn:Hp.
    + unfold bind at 1, emit at 1, modify at 1.
      unfold bind at 1, lift_logged at 1.
      pose proof (update_lines_spec last_action_time lines self n 0) as Hscan.
      cbn [fst snd] in *.
      destruct (update_lines last_action_time lines (self, n, 0)) as [[[self1 n1] m1] d1].
      cbn [fst snd] in *. injection Hscan as -> -> ->.
      unfold bind at 1, emit at 1, modify at 1.
      rewrite !add_diag_add_diag.
      edestruct IH as [d Hd]. rewrite Hd. clear Hd.
      rewrite add_diag_add_diag. eexists. cbn [log_files add_diag].
      destruct (mule_paths eq_path log_name rest) as [e|paths]; [done|].
      cbn [pending_trades]. rewrite Hp.
      cbn zeta. rewrite apply_trades_app, length_app, Nat2Z.inj_add, Z.add_assoc. done.
    + unfold bind at 1, emit at 1, modify at 1.
      edestruct IH as [d Hd]. rewrite Hd. clear Hd.
      rewrite add_diag_add_diag. eexists. cbn [log_files add_diag].
      destruct (mule_paths eq_path log_name rest) as [e|paths]; [done|].
      cbn [pending_trades]. rewrite Hp. done.
Qed.

End ScanFacts.
(** ** The store across a run *)

Lemma add_counts_to_csv_frame (p : string) (nc cc : nat) (deltas : dict) (w : World) :
  pickle_files (add_counts_to_csv p nc cc deltas w).2 = pickle_files w
  /\ log_files (add_counts_to_csv p nc cc deltas w).2 = log_files w
  /\ config_files (add_counts_to_csv p nc cc deltas w).2 = config_files w.
Proof.
  destruct (csv_files w !! p) as [rows|] eqn:Hp.
  - destruct (merge nc cc rows deltas) as [[e|] st] eqn:Hm.
    + by rewrite (add_counts_to_csv_raise _ _ _ _ _ rows e st).
    + by rewrite (add_counts_to_csv_ok _ _ _ _ _ rows st).
  - by rewrite add_counts_to_csv_missing.
Qed.

(** The checkpoint is written before either table is merged, and stays
    as written whatever the merges do. *)
Lemma write_new_trades_pickles (self : t) (w : World) :
  pickle_files (write_new_trades self w).2
  = <[history_path self := Pickled (history self)]> (pickle_files w).
Proof.
  unfold write_new_trades. unfold bind at 1, modify at 1.
  set (w1 := set_pickle_files _ w).
  assert (Hw1 : pickle_files w1 = <[history_path self := Pickled (history self)]> (pickle_files w)) by done.
  clearbody w1. unfold bind at 1.
  destruct (dict_any (words self)).
  - pose proof (add_counts_to_csv_frame (word_inventory (config self))
                  _word_name_column _word_count_column (words self) w1) as (Hpk & _ & _).
    destruct (add_counts_to_csv _ _ _ (words self) w1) as [[e|d] w2]; simpl in Hpk.
    + simpl. congruence.
    + unfold bind at 1. destruct (dict_any (items self)).
      * pose proof (add_counts_to_csv_frame (item_inventory (config self))
                      _item_name_column _item_count_column (items self) w2) as (Hpk2 & _ & _).
        destruct (add_counts_to_csv _ _ _ (items self) w2) as [[e|d2] w3]; simpl in *; congruence.
      * simpl. congruence.
  - unfold ret at 1. unfold bind at 1. destruct (dict_any (items self)).
    + pose proof (add_counts_to_csv_frame (item_inventory (config self))
                    _item_name_column _item_count_column (items self) w1) as (Hpk2 & _ & _).
      destruct (add_counts_to_csv _ _ _ (items self) w1) as [[e|d2] w3]; simpl in *; congruence.
    + simpl. congruence.
Qed.

(** With an empty words mapping only the items table can be touched. *)
Lemma write_new_trades_items_only (self : t) (w : World) :
  words self = [] ->
  Forall (fun k => k <> EmptyString) (dict_keys (items self)) ->
  write_new_trades self w =
    let w1 := set_pickle_files <[history_path self := Pickled (history self)]> w in
    match items self with
    | [] => (inr self, w1)
    | _ :: _ =>
        match add_counts_to_csv (item_inventory (config self))
                _item_name_column _item_count_column (items self) w1 with
        | (inl e, w2) => (inl e, w2)
        | (inr d, w2) =>
            (inr {| config := config self; history_path := history_path self;
                    history := history self; words := []; items := d |}, w2)
        end
    end.
Proof.
  intros Hw Hkeys. unfold write_new_trades. unfold bind at 1, modify at 1.
  rewrite Hw. cbn [dict_any existsb]. unfold ret at 1. unfold bind at 1.
  rewrite (dict_any_nonempty _ Hkeys).
  destruct self as [cfg path h ws [|kv its]]; simpl in *; [by subst|].
  unfold bind. by destruct (add_counts_to_csv _ _ _ _ _) as [[e|d] w2].
Qed.

Section RunFacts.
Context `{PyLib}.

(** [Inventory.__init__]: only the log is written; a checkpoint that
    does not unpickle raises. *)
Lemma init_spec (config_file : string) (w : World) :
  let cfg := resolved_config config_file w in
  exists d,
    init config_file w =
      (match pickle_files w !! inventory_pickle cfg with
       | Some Garbage => inl UnpicklingError
       | Some (Pickled h) =>
           inr {| config := cfg; history_path := inventory_pickle cfg;
                  history := h; words := []; items := [] |}
       | None =>
           inr {| config := cfg; history_path := inventory_pickle cfg;
                  history := History.init; words := []; items := [] |}
       end, add_diag d w).
Proof.
  unfold resolved_config, init. unfold bind at 1, gets at 1.
  destruct (config_files w !! config_file) as [c|]; cbn [default from_option id _DEBUG].
  - unfold bind at 1, ret at 1. unfold bind at 1, gets at 1.
    destruct (pickle_files w !! inventory_pickle c) as [[h|]|].
    + exists []. by rewrite add_diag_nil.
    + exists []. by rewrite add_diag_nil.
    + eexists. cbn. done.
  - unfold bind at 1, emit at 1, modify at 1. unfold bind at 1, ret at 1.
    unfold bind at 1, gets at 1. cbn [pickle_files add_diag].
    destruct (pickle_files w !! inventory_pickle _CONFIG_DEFAULTS) as [[h|]|].
    + eexists. cbn. done.
    + eexists. cbn. done.
    + eexists. cbn. unfold add_diag. cbn. rewrite <- app_assoc. done.
Qed.

Lemma update_spec (self : t) (w : World) (cutoff : datetime) (paths : list string) :
  last (History.timestamps (history self)) = Some cutoff ->
  mule_paths (eq_path (config self)) (log_name (config self))
    (py_split "," (mule_names (config self))) = inr paths ->
  exists d,
    update self w
    = write_new_trades (apply_trades self (pending_trades (log_files w) cutoff paths))
        (add_diag d w).
Proof.
  intros Hlast Hpaths. unfold update. rewrite Hlast. unfold bind at 1.
  destruct (update_mules_spec (eq_path (config self)) (log_name (config self)) cutoff
              (py_split "," (mule_names (config self))) self 0 w) as [d ->].
  rewrite Hpaths. cbn zeta. unfold bind at 1, emit at 1, modify at 1.
  rewrite add_diag_add_diag. eexists. done.
Qed.

(** A whole run from a readable (or absent) checkpoint [h]. *)
Lemma main_spec (config_file : string) (w : World) (h : History.t)
    (cutoff : datetime) (paths : list string) :
  let cfg := resolved_config config_file w in
  match pickle_files w !! inventory_pickle cfg with
  | Some (Pickled h') => h = h'
  | Some Garbage => False
  | None => h = History.init
  end ->
  last (History.timestamps h) = Some cutoff ->
  mule_paths (eq_path cfg) (log_name cfg) (py_split "," (mule_names cfg)) = inr paths ->
  exists d,
    main config_file w
    = write_new_trades
        (apply_trades {| config := cfg; history_path := inventory_pickle cfg;
                         history := h; words := []; items := [] |}
                      (pending_trades (log_files w) cutoff paths))
        (add_diag d w).
Proof.
  intros cfg Hh Hlast Hpaths. unfold main. unfold bind at 1.
  destruct (init_spec config_file w) as [d0 ->]. fold cfg.
  assert (Hinit : match pickle_files w !! inventory_pickle cfg with
                  | Some Garbage => inl UnpicklingError
                  | Some (Pickled h0) =>
                      inr {| config := cfg; history_path := inventory_pickle cfg;
                             history := h0; words := []; items := [] |}
                  | None =>
                      inr {| config := cfg; history_path := inventory_pickle cfg;
                             history := History.init; words := []; items := [] |}
                  end
                  = inr {| config := cfg; history_path := inventory_pickle cfg;
                           history := h; words := []; items := [] |}).
  { destruct (pickle_files w !! inventory_pickle cfg) as [[h'|]|]; [by subst | done | by subst]. }
  rewrite Hinit.
  edestruct (update_spec {| config := cfg; history_path := inventory_pickle cfg;
                            history := h; words := []; items := [] |} (add_diag d0 w))
    as [d ->]; [exact Hlast | exact Hpaths |].
  rewrite add_diag_add_diag. eexists. done.
Qed.

Lemma pending_trades_scanned (logs : gmap string (list string)) (cutoff : datetime)
    (paths : list string) :
  pending_trades logs cutoff paths = new_trades cutoff (scanned_lines logs paths).
Proof.
  induction paths as [|p rest IH]; [done|]. cbn [pending_trades scanned_lines].
  rewrite new_trades_app, IH. by destruct (logs !! p).
Qed.

Lemma pending_trades_insert_other (logs : gmap string (list string)) (cutoff : datetime)
    (paths : list string) (p : string) (lines : list string) :
  p ∉ paths ->
  pending_trades (<[p := lines]> logs) cutoff paths = pending_trades logs cutoff paths.
Proof.
  induction paths as [|q rest IH]; [done|]. intros Hp.
  apply not_elem_of_cons in Hp as [Hpq Hp]. cbn [pending_trades].
  by rewrite lookup_insert_ne, IH.
Qed.

(** Lines appended to one scanned log, with nothing else pending, are
    exactly what the next scan extracts from them. *)
Lemma pending_trades_append (logs : gmap string (list string)) (cutoff : datetime)
    (paths : list string) (p : string) (new : list string) :
  NoDup paths -> p ∈ paths ->
  pending_trades logs cutoff paths = [] ->
  pending_trades (<[p := default [] (logs !! p) ++ new]> logs) cutoff paths
  = new_trades cutoff new.
Proof.
  induction paths as [|q rest IH]; intros Hnd Hin Hnone; [by apply elem_of_nil in Hin|].
  apply NoDup_cons in Hnd as [Hq Hnd]. cbn [pending_trades] in *.
  apply app_eq_nil in Hnone as [Hhere Hrest].
  destruct (decide (q = p)) as [->|Hqp].
  - rewrite lookup_insert_eq, pending_trades_insert_other, Hrest, app_nil_r by done.
    rewrite new_trades_app. destruct (logs !! p); simpl in *; by rewrite ?Hhere.
  - apply elem_of_cons in Hin as [?|Hin]; [congruence|].
    rewrite lookup_insert_ne, Hhere, IH by done. done.
Qed.

End RunFacts.
(* ===================================================================== *)
(** ** The tabular merge: claims *)
(* ===================================================================== *)

(** C10.  In a call of the merge in which delta keys remain after the
    input rows are processed and the widest row seen is at most
    [max name_column count_column] cells wide (an empty table included),
    appending the remaining keys raises [IndexError]: no row is appended,
    the call as a whole raises, and the table file is left as it was. *)
Theorem append_to_narrow_table_raises_IndexError
    (nc cc : nat) (rows : list row) (deltas : dict) (st : merge_state) :
  merge_rows nc cc rows
    {| num_columns := 0; new_counts := deltas; written := []; emitted := [] |} = (None, st) ->
  new_counts st <> [] ->
  (num_columns st <= Nat.max nc cc)%nat ->
  append_rows nc cc (new_counts st) st = (Some IndexError, st)
  /\ merge nc cc rows deltas = (Some IndexError, st)
  /\ forall (p : string) (w : World),
       csv_files w !! p = Some rows ->
       (add_counts_to_csv p nc cc deltas w).1 = inl IndexError
       /\ csv_files (add_counts_to_csv p nc cc deltas w).2 !! p = Some rows.
Proof.
  intros Hrows Hleft Hwidth.
  assert (Happ : append_rows nc cc (new_counts st) st = (Some IndexError, st))
    by (by apply append_rows_fail).
  assert (Hm : merge nc cc rows deltas = (Some IndexError, st))
    by (unfold merge; by rewrite Hrows).
  split; [done|]. split; [done|]. intros p w Hp.
  rewrite (add_counts_to_csv_raise _ _ _ _ _ rows IndexError st) by done.
  split; [done|]. cbn [snd csv_files set_csv_files add_diag].
  rewrite lookup_insert_ne; [done | apply out_file_name_neq].
Qed.

Lemma append_to_narrow_table_raises_IndexError_witness :
  let st := {| num_columns := 0; new_counts := [("Ring", 2)]; written := []; emitted := [] |} in
  merge_rows 1 2 [] st = (None, st)
  /\ new_counts st <> []
  /\ (num_columns st <= Nat.max 1 2)%nat
  /\ (add_counts_to_csv "items.csv" 1 2 [("Ring", 2)] world_empty_items).1 = inl IndexError.
Proof.
  intros st.
  assert (H1 : merge_rows 1 2 [] st = (None, st)) by reflexivity.
  assert (H2 : new_counts st <> []) by discriminate.
  assert (H3 : (num_columns st <= Nat.max 1 2)%nat) by (simpl; lia).
  split; [exact H1|]. split; [exact H2|]. split; [exact H3|].
  destruct (append_to_narrow_table_raises_IndexError 1 2 [] [("Ring", 2)] st H1 H2 H3)
    as (_ & _ & Hw).
  apply (Hw "items.csv" world_empty_items). reflexivity.
Defined.

(** The row loop in general: of the rows it is given, those wide enough
    to be read go to the writer, in order and each once, the first one
    named by a key with its count increased; the keys left are those
    that name none of them. *)
Lemma merge_rows_reflects (nc cc : nat) (rows : list row) (st st' : merge_state) :
  NoDup (dict_keys (new_counts st)) ->
  merge_rows nc cc rows st = (None, st') ->
  let wide := filter (fun r => readable nc cc r = true) rows in
  exists kept,
    written st' = written st ++ kept
    /\ length kept = length wide
    /\ (forall i r, wide !! i = Some r ->
          kept !! i = Some (expected_row nc cc (new_counts st) (take i wide) r))
    /\ new_counts st' = filter (fun kv => kv.1 ∉ row_name nc <$> wide) (new_counts st).
Proof.
  revert st. induction rows as [|r rows IH]; intros st Hnd Hrun; cbn zeta.
  - cbn in Hrun. injection Hrun as <-. exists []. rewrite app_nil_r.
    repeat split; try done.
    symmetry. apply filter_all, Forall_forall. intros kv _. apply not_elem_of_nil.
  - cbn [merge_rows] in Hrun.
    destruct (merge_row nc cc st r) as [[e|] st1] eqn:Hm; [discriminate|].
    apply merge_row_inv in Hm as [_ Hm].
    destruct Hm as [(Hr & Hd1 & Hw1) | [(Hr & Hg & Hd1 & Hw1) | (delta & c & Hr & Hg & Hc & Hd1 & Hw1)]].
    + rewrite filter_cons_False by (rewrite Hr; discriminate).
      destruct (IH st1) as (kept & Hw & Hlen & Hpos & Hleft); [by rewrite Hd1 | exact Hrun |].
      exists kept. by rewrite Hw, Hw1, Hleft, Hd1 in *.
    + rewrite filter_cons_True by done.
      destruct (IH st1) as (kept & Hw & Hlen & Hpos & Hleft); [by rewrite Hd1 | exact Hrun |].
      rewrite Hd1 in Hpos, Hleft. exists (r :: kept).
      rewrite Hw, Hw1, <- app_assoc.
      split; [done|]. split; [simpl; by rewrite Hlen|]. split.
      * intros [|i] r' Hi; rewrite lookup_cons in Hi |- *.
        { injection Hi as <-. by rewrite firstn_O, expected_row_first, Hg. }
        rewrite firstn_cons, (Hpos i r' Hi). by rewrite expected_row_cons_other.
      * rewrite Hleft. apply filter_ext_elem.
        intros [k v] Hkv. rewrite fmap_cons, not_elem_of_cons. simpl.
        split; [|tauto]. intros Hk. split; [|done]. intros ->.
        apply dict_get_None in Hg. apply Hg.
        apply list_elem_of_fmap. by exists (row_name nc r, v).
    + rewrite filter_cons_True by done.
      destruct (IH st1) as (kept & Hw & Hlen & Hpos & Hleft);
        [rewrite Hd1; by apply dict_pop_NoDup | exact Hrun |].
      rewrite Hd1 in Hpos, Hleft. exists (bumped_row cc r delta :: kept).
      rewrite Hw, Hw1, <- app_assoc.
      split; [done|]. split; [simpl; by rewrite Hlen|]. split.
      * intros [|i] r' Hi; rewrite lookup_cons in Hi |- *.
        { injection Hi as <-. by rewrite firstn_O, expected_row_first, Hg. }
        rewrite firstn_cons, (Hpos i r' Hi).
        by rewrite (expected_row_cons_pop _ _ _ _ delta).
      * rewrite Hleft, dict_pop_filter by done.
        rewrite list_filter_filter. apply filter_ext_elem.
        intros kv _. rewrite fmap_cons, not_elem_of_cons. tauto.
Qed.

(** C2, as amended.  Every call of the merge that returns reflects every
    key of [deltas] exactly once in the table it leaves: as an increment,
    by the delta, of the count of the first row wide enough to be read
    whose name is the key, the key being consumed, or as exactly one
    appended row, the key staying in the mapping; the rows wide enough to
    be read appear in input order, each once. *)
Theorem merge_reflects_each_key_once_when_it_returns
    (p : string) (nc cc : nat) (deltas left : dict) (w w' : World) :
  NoDup (dict_keys deltas) ->
  add_counts_to_csv p nc cc deltas w = (inr left, w') ->
  merge_reflects_each_key_once p nc cc deltas w.
Proof.
  intros Hnd Hrun.
  destruct (csv_files w !! p) as [rows|] eqn:Hp;
    [|rewrite add_counts_to_csv_missing in Hrun by done; discriminate].
  destruct (merge nc cc rows deltas) as [[e|] st] eqn:Hm;
    [rewrite (add_counts_to_csv_raise _ _ _ _ _ rows e st) in Hrun by done; discriminate|].
  clear Hrun left w'.
  pose proof (add_counts_to_csv_ok _ _ _ _ _ rows st Hp Hm) as Hok.
  unfold merge in Hm.
  destruct (merge_rows nc cc rows _) as [[e|] st1] eqn:Hrows; [discriminate|].
  pose proof (merge_rows_num_columns _ _ _ _ _ Hrows) as Hn. cbn [num_columns] in Hn.
  rewrite Nat.max_0_r in Hn.
  destruct (merge_rows_reflects nc cc rows
              {| num_columns := 0; new_counts := deltas; written := []; emitted := [] |}
              st1 Hnd Hrows) as (kept & Hw & Hlen & Hpos & Hleft).
  cbn [written new_counts app] in Hw, Hpos, Hleft.
  apply append_rows_inv in Hm as (Hd & Hws & _).
  exists rows, (new_counts st),
    (set_csv_files (fun m => <[p := written st]> (delete (out_file_name p) m))
       (add_diag (emitted st) w)),
    kept, (appended_row nc cc (max_width rows) <$> new_counts st).
  split; [done|]. split; [exact Hok|].
  split; [cbn [csv_files set_csv_files add_diag];
          by rewrite lookup_insert_eq, Hws, Hw, Hn, Hd|].
  cbn zeta. split; [done|]. split; [done|]. split; [by rewrite Hd, Hleft | done].
Qed.

Lemma merge_reflects_each_key_once_when_it_returns_witness :
  let deltas := [("Sword", 2); ("Axe", 1)] in
  NoDup (dict_keys deltas)
  /\ (exists left w', add_counts_to_csv "items.csv" 1 2 deltas world_short_row = (inr left, w')
                      /\ left = [("Axe", 1)]
                      /\ csv_files w' !! "items.csv"
                         = Some [items_header; ["Al"; "Sword"; "5"]; [""; "Axe"; "1"]])
  /\ merge_reflects_each_key_once "items.csv" 1 2 deltas world_short_row.
Proof.
  intros deltas.
  assert (Hnd : NoDup (dict_keys deltas)) by (apply (bool_decide_unpack _); vm_compute; reflexivity).
  destruct (add_counts_to_csv "items.csv" 1 2 deltas world_short_row) as [[e|left] w'] eqn:Hrun;
    [vm_compute in Hrun; discriminate Hrun|].
  split; [exact Hnd|]. split.
  - exists left, w'. split; [reflexivity|].
    vm_compute in Hrun. injection Hrun as <- <-. split; reflexivity.
  - exact (merge_reflects_each_key_once_when_it_returns "items.csv" 1 2 deltas left
             world_short_row w' Hnd Hrun).
Defined.

(** C2, as stated, fails: on an empty table the call raises, and the
    table it leaves holds nothing for the key. *)
Lemma merge_on_empty_table_reflects_no_key :
  (add_counts_to_csv "items.csv" 1 2 [("Ring", 2)] world_empty_items).1 = inl IndexError
  /\ csv_files (add_counts_to_csv "items.csv" 1 2 [("Ring", 2)] world_empty_items).2
       !! "items.csv" = Some []
  /\ ~ merge_reflects_each_key_once "items.csv" 1 2 [("Ring", 2)] world_empty_items.
Proof.
  split; [reflexivity|]. split; [reflexivity|].
  intros (rows & left & w' & kept & appended & _ & Hrun & _).
  vm_compute in Hrun. discriminate Hrun.
Qed.

(** C3.  The merge of [{"Sword": 2}] into a table with the row
    [["Bob"; "Ring"]], too short to hold a count: the diagnostic is
    emitted and the row is matched to no key, but the row is absent from
    the table the call leaves. *)
Theorem short_row_is_dropped_from_the_table :
  let r := add_counts_to_csv "items.csv" 1 2 [("Sword", 2)] world_short_row in
  csv_files world_short_row !! "items.csv"
    = Some [items_header; ["Bob"; "Ring"]; ["Al"; "Sword"; "3"]]
  /\ r.1 = inr []
  /\ csv_files r.2 !! "items.csv" = Some [items_header; ["Al"; "Sword"; "5"]]
  /\ diag r.2 = [(WARNING, "'Bob,Ring' has too few columns - can't read it.");
                 (INFO, "Found Sword is csv. Adding 2 to count.")].
Proof. vm_compute. repeat split. Qed.

(** The same for any row too short, in any call: the iteration logs the
    warning, consumes no key and hands nothing to the writer. *)
Lemma short_row_is_not_written (nc cc : nat) (st : merge_state) (r : row) :
  (length r <= Nat.max nc cc)%nat ->
  exists st', merge_row nc cc st r = (None, st')
    /\ written st' = written st /\ new_counts st' = new_counts st
    /\ emitted st' = emitted st ++
         [(WARNING, "'" +:+ py_join "," r +:+ "' has too few columns - can't read it.")].
Proof.
  intros Hlen. eexists. rewrite merge_row_narrow; [done|].
  unfold readable. apply Nat.ltb_ge. lia.
Qed.
(* ===================================================================== *)
(** ** The checkpoint: claims *)
(* ===================================================================== *)

(** C8.  A checkpoint file that exists and does not unpickle is fatal:
    the run raises out of the constructor, before any table, checkpoint
    or log file is touched, and no fresh checkpoint is substituted. *)
Theorem corrupt_checkpoint_is_fatal `{PyLib} (config_file : string) (w : World) :
  pickle_files w !! inventory_pickle (resolved_config config_file w) = Some Garbage ->
  (main config_file w).1 = inl UnpicklingError
  /\ csv_files (main config_file w).2 = csv_files w
  /\ pickle_files (main config_file w).2 = pickle_files w
  /\ log_files (main config_file w).2 = log_files w.
Proof.
  intros Hpk.
  destruct (init_spec config_file w) as [d Hinit]. cbn zeta in Hinit.
  rewrite Hpk in Hinit.
  assert (Hmain : main config_file w = (inl UnpicklingError, add_diag d w))
    by (unfold main; unfold bind at 1; by rewrite Hinit).
  by rewrite Hmain.
Qed.

Lemma corrupt_checkpoint_is_fatal_witness :
  pickle_files world_corrupt_checkpoint
    !! inventory_pickle (resolved_config "config.cfg" world_corrupt_checkpoint) = Some Garbage
  /\ (sample_run world_corrupt_checkpoint).1 = inl UnpicklingError
  /\ csv_files (sample_run world_corrupt_checkpoint).2 = csv_files world_corrupt_checkpoint.
Proof.
  assert (Hpk : pickle_files world_corrupt_checkpoint
                  !! inventory_pickle (resolved_config "config.cfg" world_corrupt_checkpoint)
                = Some Garbage) by reflexivity.
  split; [exact Hpk|].
  destruct (@corrupt_checkpoint_is_fatal sample_lib "config.cfg" world_corrupt_checkpoint Hpk)
    as (Hres & Hcsv & _).
  split; [exact Hres | exact Hcsv].
Defined.

(** C6.  With no checkpoint file, the run starts from the sentinel
    1900-01-01; if the scanned logs hold [M] lines, all of them trade
    lines stamped after the sentinel, the checkpoint the run persists
    holds the sentinel and the [M] events in order, and its last
    timestamp is that of the last line. *)
Theorem fresh_checkpoint_records_the_whole_log `{PyLib}
    (config_file : string) (w : World) (paths : list string) (events : list trade_event) :
  let cfg := resolved_config config_file w in
  let sentinel := mk_datetime 1900 1 1 0 0 0 in
  pickle_files w !! inventory_pickle cfg = None ->
  mule_paths (eq_path cfg) (log_name cfg) (py_split "," (mule_names cfg)) = inr paths ->
  Forall2 (fun line e => trade_line line e /\ datetime_le e.1 sentinel = false)
          (scanned_lines (log_files w) paths) events ->
  exists h,
    pickle_files (main config_file w).2 !! inventory_pickle cfg = Some (Pickled h)
    /\ History.timestamps h = sentinel :: (fst <$> events)
    /\ length (History.timestamps h) = S (length (scanned_lines (log_files w) paths))
    /\ length (History.actions h) = S (length (scanned_lines (log_files w) paths))
    /\ forall line, last (scanned_lines (log_files w) paths) = Some line ->
         exists ts, (get_log_timestamp line).1 = Some ts
                    /\ last (History.timestamps h) = Some ts.
Proof.
  intros cfg sentinel Hpk Hpaths Hlines.
  destruct (main_spec config_file w History.init sentinel paths) as [d Hmain].
  { fold cfg. by rewrite Hpk. }
  { done. }
  { exact Hpaths. }
  fold cfg in Hmain. rewrite Hmain, write_new_trades_pickles.
  rewrite pending_trades_scanned, (new_trades_all _ _ events Hlines).
  set (self0 := {| config := cfg; history_path := inventory_pickle cfg;
                   history := History.init; words := []; items := [] |}).
  destruct (apply_trades_history self0 events) as (Ht & Ha & _ & Hp).
  rewrite Hp. cbn [history_path self0].
  exists (history (apply_trades self0 events)).
  split; [apply lookup_insert_eq|]. split; [exact Ht|].
  pose proof (Forall2_length _ _ _ Hlines) as Hlen.
  split; [rewrite Ht; cbn; by rewrite length_fmap, Hlen|].
  split; [rewrite Ha; cbn; by rewrite length_fmap, Hlen|].
  intros line Hlast. apply last_Some in Hlast as [lines' Hsplit].
  rewrite Hsplit in Hlines.
  apply Forall2_app_inv_l in Hlines as (ev' & ev1 & _ & Hone & ->).
  apply Forall2_cons_inv_l in Hone as (e & ev2 & [[Hts _] _] & Hnil & ->).
  apply Forall2_nil_inv_l in Hnil as ->.
  exists e.1. split; [exact Hts|].
  rewrite Ht, fmap_app, app_assoc. cbn [fmap list_fmap]. by rewrite last_snoc.
Qed.

Lemma fresh_checkpoint_records_the_whole_log_witness :
  let cfg := resolved_config "config.cfg" world_one_log in
  pickle_files world_one_log !! inventory_pickle cfg = None
  /\ @mule_paths sample_lib (eq_path cfg) (log_name cfg) (py_split "," (mule_names cfg))
     = inr [mule_log]
  /\ exists h,
       pickle_files (sample_run world_one_log).2 !! inventory_pickle cfg = Some (Pickled h)
       /\ History.timestamps h = [mk_datetime 1900 1 1 0 0 0; mk_datetime 2020 1 6 20 16 0].
Proof.
  intros cfg.
  assert (Hpk : pickle_files world_one_log !! inventory_pickle cfg = None) by reflexivity.
  assert (Hpaths : @mule_paths sample_lib (eq_path cfg) (log_name cfg)
                     (py_split "," (mule_names cfg)) = inr [mule_log]) by reflexivity.
  split; [exact Hpk|]. split; [exact Hpaths|].
  destruct (@fresh_checkpoint_records_the_whole_log sample_lib "config.cfg" world_one_log
              [mule_log] [(mk_datetime 2020 1 6 20 16 0, ("Bob", "Ring"))] Hpk Hpaths)
    as (h & Hh & Ht & _).
  { repeat constructor. }
  exists h. split; [exact Hh | exact Ht].
Defined.

(** C9, as amended.  The checkpoint starts with its sentinel entry;
    [record] appends one entry and leaves the earlier ones in place; and
    over the scan of any sources, in the order given, the sequence stays
    non-empty, keeps its earlier entries as a prefix, and gains only
    entries stamped strictly after the cutoff read when the run began. *)
Theorem checkpoint_is_append_only `{PyLib}
    (eq_path log_name : string) (mules : list string) (self self' : t) (n n' : Z)
    (w w' : World) (cutoff : datetime) :
  last (History.timestamps (history self)) = Some cutoff ->
  update_mules eq_path log_name cutoff mules (self, n) w = (inr (self', n'), w') ->
  History.timestamps History.init = [mk_datetime 1900 1 1 0 0 0]
  /\ (forall (h : History.t) ts action,
        History.timestamps (History.record h ts action) = History.timestamps h ++ [ts]
        /\ length (History.actions (History.record h ts action))
           = S (length (History.actions h)))
  /\ exists new_events : list trade_event,
       History.timestamps (history self')
         = History.timestamps (history self) ++ (fst <$> new_events)
       /\ History.actions (history self')
         = History.actions (history self)
             ++ ((fun e => e.2.1 +:+ " -> " +:+ e.2.2) <$> new_events)
       /\ History.timestamps (history self') <> []
       /\ Forall (fun e => datetime_le e.1 cutoff = false) new_events.
Proof.
  intros Hlast Hrun. split; [done|]. split.
  { intros h ts action. split; [done|]. cbn. rewrite length_app. cbn. lia. }
  destruct (update_mules_spec eq_path log_name cutoff mules self n w) as [d Hspec].
  rewrite Hspec in Hrun.
  destruct (mule_paths eq_path log_name mules) as [e|paths]; [discriminate|].
  cbn zeta in Hrun. injection Hrun as <- _ _.
  exists (pending_trades (log_files w) cutoff paths).
  destruct (apply_trades_history self (pending_trades (log_files w) cutoff paths))
    as (Ht & Ha & _ & _).
  split; [exact Ht|]. split; [exact Ha|]. split.
  - rewrite Ht. destruct (History.timestamps (history self)); [discriminate | done].
  - eapply Forall_impl; [apply pending_trades_after|]. by intros e [He _].
Qed.

Lemma checkpoint_is_append_only_witness :
  let self := {| config := sample_config "Mule,Devook"; history_path := "history.pickle";
                 history := History.init; words := []; items := [] |} in
  let sentinel := mk_datetime 1900 1 1 0 0 0 in
  last (History.timestamps (history self)) = Some sentinel
  /\ exists self' n' w',
       @update_mules sample_lib "logs" "eqlog_<NAME>.txt" sentinel ["Mule"; "Devook"]
         (self, 0) world_two_logs = (inr (self', n'), w')
       /\ History.timestamps (history self') <> [].
Proof.
  intros self sentinel.
  assert (Hlast : last (History.timestamps (history self)) = Some sentinel) by reflexivity.
  split; [exact Hlast|].
  destruct (@update_mules sample_lib "logs" "eqlog_<NAME>.txt" sentinel ["Mule"; "Devook"]
              (self, 0) world_two_logs) as [[e|[self' n']] w'] eqn:Hrun.
  - vm_compute in Hrun. discriminate Hrun.
  - exists self', n', w'. split; [reflexivity|].
    destruct (@checkpoint_is_append_only sample_lib _ _ _ _ _ _ _ _ _ _ Hlast Hrun)
      as (_ & _ & ev & _ & _ & Hne & _).
    exact Hne.
Defined.

(** C9, as stated, fails: with two sources, the first scanned holding the
    later trade, the persisted timestamps are out of order. *)
Lemma checkpoint_of_two_sources_is_out_of_order :
  exists h,
    pickle_files (sample_run world_two_logs).2 !! "history.pickle" = Some (Pickled h)
    /\ History.timestamps h
       = [mk_datetime 1900 1 1 0 0 0; mk_datetime 2020 1 6 20 16 0;
          mk_datetime 2020 1 6 20 15 33]
    /\ nondecreasing (History.timestamps h) = false.
Proof. eexists. vm_compute. repeat split. Qed.
(* ===================================================================== *)
(** ** The classifier: claims *)
(* ===================================================================== *)

Lemma dict_mem_set (d : dict) (k k' : string) (v : Z) :
  dict_mem d k = true -> dict_mem (dict_set d k' v) k = true.
Proof.
  unfold dict_mem. induction d as [|[k0 v0] d IH]; cbn [dict_get dict_set]; [done|].
  destruct (String.eqb_spec k0 k') as [->|Hne]; cbn [dict_get].
  - by destruct (String.eqb k' k).
  - by destruct (String.eqb k0 k).
Qed.

Lemma process_trade_words_grow (self : t) (ts : datetime) (tr : string * string) (k : string) :
  dict_mem (words self) k = true -> dict_mem (words (process_trade self ts tr).1) k = true.
Proof.
  intros Hk. unfold process_trade. cbn [fst snd lbind tell lret words].
  destruct (matches_word_pattern tr.2 || dict_mem (words self) tr.2); [|done].
  by apply dict_mem_set.
Qed.

Lemma apply_trades_words_grow (self : t) (l : list trade_event) (k : string) :
  dict_mem (words self) k = true -> dict_mem (words (apply_trades self l)) k = true.
Proof.
  revert self. induction l as [|e l IH]; intros self Hk; [done|].
  apply (IH (apply_trade self e)). by apply process_trade_words_grow.
Qed.

(** C4, as amended.  Once a subject is a key of the words mapping of the
    running [Inventory], then after any further events of that run a
    trade event for the same name is counted in the words mapping and
    leaves the items mapping alone, whether or not the name matches a
    word pattern. *)
Theorem subject_in_words_mapping_stays_in_words
    (self : t) (later : list trade_event) (ts : datetime) (trade : string * string) :
  dict_mem (words self) trade.2 = true ->
  let now := apply_trades self later in
  let after := (process_trade now ts trade).1 in
  words after = dict_set (words now) trade.2 (default 0 (dict_get (words now) trade.2) + 1)
  /\ items after = items now
  /\ dict_mem (words after) trade.2 = true.
Proof.
  intros Hmem now after.
  assert (Hnow : dict_mem (words now) trade.2 = true) by (by apply apply_trades_words_grow).
  destruct (process_trade_member now ts trade Hnow) as [Hw Hi].
  split; [exact Hw|]. split; [exact Hi|]. by apply process_trade_words_grow.
Qed.

Lemma subject_in_words_mapping_stays_in_words_witness :
  let self := {| config := sample_config "Mule"; history_path := "history.pickle";
                 history := History.init; words := [("Ring", 3)]; items := [] |} in
  let ts := mk_datetime 2020 1 6 20 16 0 in
  matches_word_pattern "Ring" = false
  /\ dict_mem (words self) "Ring" = true
  /\ words (process_trade self ts ("Bob", "Ring")).1 = [("Ring", 4)]
  /\ items (process_trade self ts ("Bob", "Ring")).1 = [].
Proof.
  intros self ts.
  assert (Hmem : dict_mem (words self) ("Bob", "Ring").2 = true) by reflexivity.
  split; [reflexivity|]. split; [exact Hmem|].
  destruct (subject_in_words_mapping_stays_in_words self [] ts ("Bob", "Ring") Hmem)
    as (Hw & Hi & _).
  split; [exact Hw | exact Hi].
Defined.

(** C4, as stated, fails for a count recorded by a prior run: the words
    table records three of [Ring], and the next run, whose words mapping
    starts empty, counts a trade of [Ring] in the items table. *)
Lemma subject_in_words_table_is_counted_as_item :
  table_count (String.eqb "Ring") "words.csv" _word_name_column _word_count_column
    world_ring_in_words = 3
  /\ (exists inv, (sample_run world_ring_in_words).1 = inr inv
                  /\ words inv = [] /\ items inv = [("Ring", 1)])
  /\ csv_files (sample_run world_ring_in_words).2 !! "words.csv" = Some [[""; ""; "Ring"; "3"]]
  /\ csv_files (sample_run world_ring_in_words).2 !! "items.csv"
     = Some [items_header; [""; "Ring"; "1"]].
Proof.
  split; [reflexivity|]. split; [eexists; vm_compute; repeat split|].
  split; vm_compute; reflexivity.
Qed.

(* ===================================================================== *)
(** ** Runs: claims *)
(* ===================================================================== *)

(** C5.  Two sources, the one scanned first holding the later trade; a
    first run from no checkpoint, then a second run with no line added.
    The second run takes the first source's trade for new again: the
    checkpoint gains an entry and the items table changes. *)
Theorem second_run_without_new_lines_counts_again :
  let w1 := (sample_run world_two_logs).2 in
  let w2 := (sample_run w1).2 in
  log_files w1 = log_files world_two_logs
  /\ log_files w2 = log_files world_two_logs
  /\ csv_files w1 !! "items.csv"
     = Some [items_header; [""; "Ring"; "1"]; [""; "Sword"; "1"]]
  /\ csv_files w2 !! "items.csv"
     = Some [items_header; [""; "Ring"; "2"]; [""; "Sword"; "1"]]
  /\ (exists h1 h2,
        pickle_files w1 !! "history.pickle" = Some (Pickled h1)
        /\ pickle_files w2 !! "history.pickle" = Some (Pickled h2)
        /\ History.actions h1 = [""; "Bob -> Ring"; "Al -> Sword"]
        /\ History.actions h2 = [""; "Bob -> Ring"; "Al -> Sword"; "Bob -> Ring"]).
Proof.
  intros w1 w2. split; [reflexivity|]. split; [reflexivity|].
  split; [vm_compute; reflexivity|]. split; [vm_compute; reflexivity|].
  eexists _, _. vm_compute. repeat split.
Qed.

(** C7.  A run whose merge raises (the items table exists and is empty):
    the checkpoint on disk already holds the trade, the table does not,
    and the retry finds nothing to process. *)
Theorem failed_merge_leaves_checkpoint_advanced :
  let r1 := sample_run world_empty_items in
  let r2 := sample_run r1.2 in
  r1.1 = inl IndexError
  /\ pickle_files r1.2 !! "history.pickle"
     = Some (Pickled {| History.timestamps :=
                          [mk_datetime 1900 1 1 0 0 0; mk_datetime 2020 1 6 20 16 0];
                        History.actions := [""; "Bob -> Ring"] |})
  /\ csv_files r1.2 !! "items.csv" = Some []
  /\ (exists inv, r2.1 = inr inv /\ items inv = [] /\ words inv = [])
  /\ csv_files r2.2 !! "items.csv" = Some []
  /\ pickle_files r2.2 !! "history.pickle" = pickle_files r1.2 !! "history.pickle".
Proof.
  intros r1 r2. split; [vm_compute; reflexivity|]. split; [vm_compute; reflexivity|].
  split; [vm_compute; reflexivity|]. split; [eexists; vm_compute; repeat split|].
  split; vm_compute; reflexivity.
Qed.

(** C1, as amended.  [w] is a store with a readable checkpoint and no
    event pending in the logs of its sources, whose paths are distinct;
    trade lines stamped strictly after the checkpoint's last timestamp
    are appended to one of those logs; the two tables are different
    files, neither the temporary file of the items merge; and the next
    run completes.  Then the words table is as it was, and for every
    selection of subjects the tables record as many more as there are
    selected events among the appended lines: each subject its number of
    occurrences, and [N] more in total for [N] lines. *)
Theorem appended_trades_are_counted_once `{PyLib}
    (config_file : string) (w : World) (h : History.t) (cutoff : datetime)
    (paths : list string) (p : string) (new : list string) (events : list trade_event)
    (inv : t) :
  let cfg := resolved_config config_file w in
  pickle_files w !! inventory_pickle cfg = Some (Pickled h) ->
  last (History.timestamps h) = Some cutoff ->
  mule_paths (eq_path cfg) (log_name cfg) (py_split "," (mule_names cfg)) = inr paths ->
  NoDup paths -> p ∈ paths ->
  pending_trades (log_files w) cutoff paths = [] ->
  Forall2 (fun line e => trade_line line e /\ datetime_le e.1 cutoff = false) new events ->
  word_inventory cfg <> item_inventory cfg ->
  word_inventory cfg <> out_file_name (item_inventory cfg) ->
  (main config_file (append_log p new w)).1 = inr inv ->
  counts_appended_trades config_file w p new events
  /\ csv_files (main config_file (append_log p new w)).2 !! word_inventory cfg
     = csv_files w !! word_inventory cfg
  /\ recorded (fun _ => true) cfg (main config_file (append_log p new w)).2
     = recorded (fun _ => true) cfg w + Z.of_nat (length new).
Proof.
  intros cfg Hpk Hlast Hpaths Hnd Hp Hnone Hnew Hwi Hwo Hok.
  destruct (main_spec config_file (append_log p new w) h cutoff paths) as [d Hmain];
    [change (resolved_config config_file (append_log p new w)) with cfg;
     change (pickle_files (append_log p new w)) with (pickle_files w); by rewrite Hpk
    | done | exact Hpaths |].
  change (resolved_config config_file (append_log p new w)) with cfg in Hmain.
  change (log_files (append_log p new w))
    with (<[p := default [] (log_files w !! p) ++ new]> (log_files w)) in Hmain.
  rewrite pending_trades_append, (new_trades_all _ _ events Hnew) in Hmain by done.
  set (self0 := {| config := cfg; history_path := inventory_pickle cfg;
                   history := h; words := []; items := [] |}) in Hmain.
  assert (Hplain : Forall (fun e : trade_event =>
                     matches_word_pattern e.2.2 = false /\ e.2.2 <> EmptyString) events).
  { rewrite <- (new_trades_all cutoff new events Hnew).
    eapply Forall_impl; [apply new_trades_after|]. by intros e [_ He]. }
  destruct (apply_trades_history self0 events) as (_ & _ & Hcfg & Hpath).
  assert (Hall : forall P : string -> bool,
            csv_files (main config_file (append_log p new w)).2 !! word_inventory cfg
              = csv_files w !! word_inventory cfg
            /\ table_count P (item_inventory cfg) _item_name_column _item_count_column
                 (main config_file (append_log p new w)).2
               = table_count P (item_inventory cfg) _item_name_column _item_count_column w
                 + occurrences P events).
  { intros P.
    destruct (apply_trades_plain P self0 events) as (Hw & Hsum & Hkeys & _);
      [done | done | constructor |].
    rewrite Hmain in Hok |- *.
    rewrite (write_new_trades_items_only _ _ Hw Hkeys) in Hok |- *. cbn zeta in Hok |- *.
    cbn [items self0 dict_sum] in Hsum. rewrite Z.add_0_l in Hsum.
    destruct (items (apply_trades self0 events)) as [|kv its] eqn:Hits.
    - cbn [dict_sum] in Hsum. rewrite <- Hsum. unfold table_count. cbn. split; [done | lia].
    - rewrite Hcfg in Hok |- *. cbn [config self0] in Hok |- *.
      set (w1 := set_pickle_files _ (add_diag d (append_log p new w))) in Hok |- *.
      assert (Hcsv : csv_files w1 = csv_files w) by done.
      destruct (csv_files w1 !! item_inventory cfg) as [rows|] eqn:Hrows.
      + destruct (merge _item_name_column _item_count_column rows (kv :: its))
          as [[e|] st] eqn:Hm.
        * rewrite (add_counts_to_csv_raise _ _ _ _ _ rows e st) in Hok by done. discriminate.
        * rewrite (add_counts_to_csv_ok _ _ _ _ _ rows st) by done.
          unfold table_count. cbn [snd csv_files set_csv_files add_diag].
          rewrite lookup_insert_eq, lookup_insert_ne, lookup_delete_ne by congruence.
          rewrite <- Hcsv, Hrows. cbn [default from_option id].
          split; [done|].
          rewrite (merge_count P _ _ rows (kv :: its) st) by done. by rewrite Hsum.
      + rewrite add_counts_to_csv_missing in Hok by done. discriminate. }
  split; [|split].
  - unfold counts_appended_trades. cbn zeta. fold cfg.
    intros P. destruct (Hall P) as [Hwords Hitems].
    unfold recorded. rewrite Hitems. unfold table_count at 1 3. rewrite Hwords. lia.
  - by destruct (Hall (fun _ => true)).
  - destruct (Hall (fun _ => true)) as [Hwords Hitems].
    unfold recorded. rewrite Hitems. unfold table_count at 1 3. rewrite Hwords.
    assert (Hocc : occurrences (fun _ => true) events = Z.of_nat (length new)).
    { rewrite (Forall2_length _ _ _ Hnew). clear.
      induction events as [|e l IH]; [done|]. cbn [occurrences length].
      rewrite IH. lia. }
    rewrite Hocc. lia.
Qed.

Lemma appended_trades_are_counted_once_witness :
  let w := (sample_run world_one_log).2 in
  let cfg := resolved_config "config.cfg" w in
  let after := sample_run (append_log mule_log [line_axe] w) in
  (exists inv, after.1 = inr inv)
  /\ csv_files after.2 !! "items.csv"
     = Some [items_header; [""; "Ring"; "1"]; [""; "Axe"; "1"]]
  /\ recorded (fun _ => true) cfg after.2 = recorded (fun _ => true) cfg w + 1.
Proof.
  intros w cfg after.
  assert (Hok : exists inv, after.1 = inr inv) by (eexists; vm_compute; reflexivity).
  split; [exact Hok|]. split; [vm_compute; reflexivity|].
  destruct Hok as [inv Hok].
  refine (proj2 (proj2 (@appended_trades_are_counted_once sample_lib "config.cfg" w
            {| History.timestamps := [mk_datetime 1900 1 1 0 0 0; mk_datetime 2020 1 6 20 16 0];
               History.actions := [""; "Bob -> Ring"] |}
            (mk_datetime 2020 1 6 20 16 0) [mule_log] mule_log [line_axe]
            [(mk_datetime 2020 1 7 9 0 0, ("Cy", "Axe"))] inv _ _ _ _ _ _ _ _ _ Hok))).
  - vm_compute. reflexivity.
  - reflexivity.
  - vm_compute. reflexivity.
  - apply NoDup_singleton.
  - left.
  - vm_compute. reflexivity.
  - repeat constructor.
  - intros Heq. vm_compute in Heq. discriminate Heq.
  - intros Heq. vm_compute in Heq. discriminate Heq.
Defined.

(** C1, as stated, fails: after a run, a trade line stamped with the
    very second of the last processed trade is appended; the next run
    skips it, and the tables record nothing more. *)
Lemma trade_in_the_cutoff_second_is_lost :
  let w := (sample_run world_one_log).2 in
  let event := (mk_datetime 2020 1 6 20 16 0, ("Al", "Sword")) in
  @trade_line sample_lib line_sword_later event
  /\ ~ @counts_appended_trades sample_lib "config.cfg" w mule_log [line_sword_later] [event].
Proof.
  intros w event. split; [split; reflexivity|].
  intros Hall. specialize (Hall (fun _ => true)). vm_compute in Hall. discriminate Hall.
Qed.
(* ===================================================================== *)
(** ** The event extractor *)
(* ===================================================================== *)

Lemma string_app_assoc (a b c : string) : (a +:+ b) +:+ c = a +:+ (b +:+ c).
Proof. induction a as [|x a IH]; [done | exact (f_equal (String x) IH)]. Qed.

Lemma string_app_nil_r (a : string) : a +:+ EmptyString = a.
Proof. induction a as [|x a IH]; [done | exact (f_equal (String x) IH)]. Qed.

Lemma str_drop_app (p r : string) : str_drop (String.length p) (p +:+ r) = r.
Proof. induction p as [|c p IH]; simpl; [by destruct r | done]. Qed.

Lemma str_drop_short (n : nat) (s : string) :
  (String.length s <= n)%nat -> str_drop n s = EmptyString.
Proof.
  revert s. induction n as [|n IH]; intros [|c s]; simpl; intros Hle; try done; [lia|].
  apply IH. lia.
Qed.

Lemma strip_prefix_app (p r : string) : strip_prefix p (p +:+ r) = Some r.
Proof. induction p as [|c p IH]; simpl; [done | by rewrite Ascii.eqb_refl]. Qed.

Lemma strip_prefix_Some (p s r : string) : strip_prefix p s = Some r -> s = p +:+ r.
Proof.
  revert s. induction p as [|a p IH]; intros s; simpl; [by intros [= ->]|].
  destruct s as [|b s]; [done|].
  destruct (Ascii.eqb_spec a b) as [->|]; [|done]. intros Hs. by rewrite (IH s Hs).
Qed.

Lemma span_word_app (s w r : string) : span_word s = (w, r) -> s = w +:+ r.
Proof.
  revert w r. induction s as [|c s IH]; intros w r; simpl; [by intros [= <- <-]|].
  destruct (is_word_char c); [|by intros [= <- <-]].
  destruct (span_word s) as [w' r']. intros [= <- <-]. simpl. by rewrite (IH w' r').
Qed.

Lemma span_word_rest (s : string) : starts_nonword (span_word s).2 = true.
Proof.
  induction s as [|c s IH]; simpl; [done|].
  destruct (is_word_char c) eqn:Hc; [|by simpl; rewrite Hc].
  by destruct (span_word s).
Qed.

Lemma span_word_exact (w r : string) :
  all_word w = true -> starts_nonword r = true -> span_word (w +:+ r) = (w, r).
Proof.
  intros Hw Hr. induction w as [|c w IH]; simpl in *.
  - destruct r as [|c r]; [done|]. simpl in *. by destruct (is_word_char c).
  - apply andb_true_iff in Hw as [Hc Hw]. by rewrite Hc, IH.
Qed.

(** X1.  A line that, after its first 27 characters, reads
    [<player> has offered you a <item>.] with non-empty word tokens, is a
    trade, and the groups are those tokens, whatever follows the full
    stop. *)
Theorem trade_line_is_recognised (stamp player item rest : string) :
  String.length stamp = 27%nat ->
  all_word player = true -> player <> EmptyString ->
  all_word item = true -> item <> EmptyString ->
  check_for_trade_action
    (stamp +:+ player +:+ " has offered you a " +:+ item +:+ "." +:+ rest)
  = Some (player, item).
Proof.
  intros Hlen Hp Hpne Hi Hine. unfold check_for_trade_action.
  rewrite <- Hlen, str_drop_app. unfold match_trade_regex.
  rewrite span_word_exact by done.
  destruct (String.eqb_spec player ""); [done|].
  rewrite strip_prefix_app, span_word_exact by done.
  destruct (String.eqb_spec item ""); [done|].
  by rewrite strip_prefix_app.
Qed.

Lemma trade_line_is_recognised_witness :
  check_for_trade_action
    ("[Mon Jan 06 20:16:00 2020] " +:+ "Bob" +:+ " has offered you a " +:+ "Ring" +:+ "."
     +:+ " Accept?") = Some ("Bob", "Ring").
Proof.
  apply (trade_line_is_recognised "[Mon Jan 06 20:16:00 2020] " "Bob" "Ring" " Accept?");
    first [reflexivity | discriminate].
Defined.

(** X2.  Conversely, whenever a line is taken for a trade, the text from
    its 28th character on reads [<player> has offered you a <item>.],
    the two groups are non-empty runs of word characters, and so the
    line is longer than 27 characters. *)
Theorem recognised_trade_has_the_shape (line player item : string) :
  check_for_trade_action line = Some (player, item) ->
  (exists rest,
     str_drop 27 line = player +:+ " has offered you a " +:+ item +:+ "." +:+ rest)
  /\ all_word player = true /\ player <> EmptyString
  /\ all_word item = true /\ item <> EmptyString
  /\ (27 < String.length line)%nat.
Proof.
  unfold check_for_trade_action, match_trade_regex. intros Hm.
  assert (Hlong : (27 < String.length line)%nat).
  { destruct (Nat.le_gt_cases (String.length line) 27) as [Hle|]; [|done].
    rewrite (str_drop_short 27 line Hle) in Hm. discriminate. }
  pose proof (span_word_all_word (str_drop 27 line)) as Hpw.
  destruct (span_word (str_drop 27 line)) as [pl r1] eqn:H1.
  destruct (String.eqb_spec pl ""); [done|].
  destruct (strip_prefix " has offered you a " r1) as [r2|] eqn:H2; [|done].
  pose proof (span_word_all_word r2) as Hiw.
  destruct (span_word r2) as [it r3] eqn:H3.
  destruct (String.eqb_spec it ""); [done|].
  destruct (strip_prefix "." r3) as [r4|] eqn:H4; [|done].
  injection Hm as <- <-.
  apply span_word_app in H1, H3. apply strip_prefix_Some in H2, H4.
  split; [exists r4; by rewrite H1, H2, H3, H4|]. done.
Qed.

Lemma recognised_trade_has_the_shape_witness :
  check_for_trade_action line_ring = Some ("Bob", "Ring")
  /\ exists rest, str_drop 27 line_ring = "Bob" +:+ " has offered you a " +:+ "Ring" +:+ "." +:+ rest.
Proof.
  assert (Hm : check_for_trade_action line_ring = Some ("Bob", "Ring")) by reflexivity.
  split; [exact Hm|].
  exact (proj1 (recognised_trade_has_the_shape line_ring "Bob" "Ring" Hm)).
Defined.

(** X3.  The subject of a recognised trade matches none of the word
    patterns: every pattern needs a blank, and a subject is a single
    word. *)
Theorem trade_subject_matches_no_word_pattern (line player item : string) :
  check_for_trade_action line = Some (player, item) ->
  matches_word_pattern item = false.
Proof. intros Hm. by destruct (trade_item_plain line player item Hm). Qed.

Lemma trade_subject_matches_no_word_pattern_witness :
  check_for_trade_action line_ring = Some ("Bob", "Ring")
  /\ matches_word_pattern "Ring" = false.
Proof.
  assert (Hm : check_for_trade_action line_ring = Some ("Bob", "Ring")) by reflexivity.
  split; [exact Hm|].
  exact (trade_subject_matches_no_word_pattern line_ring "Bob" "Ring" Hm).
Defined.

(* ===================================================================== *)
(** ** The log path of a source *)
(* ===================================================================== *)

Lemma occurs_in_cons (sep : string) (c : ascii) (s : string) :
  occurs_in sep (String c s)
  = match strip_prefix sep (String c s) with
    | Some _ => true
    | None => occurs_in sep s
    end.
Proof. done. Qed.

Lemma split_go_no_occurrence (sep cur s : string) :
  occurs_in sep s = false -> split_go sep 0 cur s = [cur +:+ s].
Proof.
  revert cur. induction s as [|c s IH]; intros cur; cbn [occurs_in split_go].
  - intros _. by rewrite string_app_nil_r.
  - destruct (strip_prefix sep (String c s)); [done|]. intros Hs.
    rewrite IH by done. by rewrite string_app_assoc.
Qed.

Lemma split_go_skip (sep cur x s : string) :
  split_go sep (String.length x) cur (x +:+ s) = split_go sep 0 cur s.
Proof. induction x as [|c x IH]; [done | exact IH]. Qed.

Lemma strip_prefix_None_app (p x y : string) :
  strip_prefix p x = None -> (String.length p <= String.length x)%nat ->
  strip_prefix p (x +:+ y) = None.
Proof.
  revert x. induction p as [|a p IH]; intros x; [done|].
  destruct x as [|b x]; simpl; [lia|].
  destruct (Ascii.eqb a b); [|done]. intros Hx Hlen. apply IH; [done | lia].
Qed.

(** The first piece of a split at the first occurrence of the
    placeholder. *)
Lemma split_go_first_NAME (cur a b : string) :
  occurs_in "<NAME>" (a +:+ "<NAME") = false ->
  split_go "<NAME>" 0 cur (a +:+ "<NAME>" +:+ b)
  = (cur +:+ a) :: split_go "<NAME>" 0 EmptyString b.
Proof.
  revert cur. induction a as [|c a IH]; intros cur Hocc.
  - rewrite string_app_nil_r.
    change (EmptyString +:+ "<NAME>" +:+ b) with (String "<" ("NAME>" +:+ b)).
    cbn [split_go]. change (String "<" ("NAME>" +:+ b)) with ("<NAME>" +:+ b).
    rewrite strip_prefix_app. f_equal.
  - change (String c a +:+ "<NAME>" +:+ b) with (String c (a +:+ "<NAME>" +:+ b)).
    cbn [split_go].
    change (String c a +:+ "<NAME") with (String c (a +:+ "<NAME")) in Hocc.
    rewrite occurs_in_cons in Hocc.
    destruct (strip_prefix "<NAME>" (String c (a +:+ "<NAME"))) eqn:Hs; [done|].
    assert (Hnone : strip_prefix "<NAME>" (String c (a +:+ "<NAME>" +:+ b)) = None).
    { change (String c (a +:+ "<NAME>" +:+ b))
        with (String c a +:+ ("<NAME" +:+ (">" +:+ b))).
      rewrite <- string_app_assoc. apply strip_prefix_None_app; [exact Hs|].
      cbn [String.length]. rewrite string_app_length. simpl. lia. }
    rewrite Hnone, IH by done. by rewrite string_app_assoc.
Qed.

Section LogPath.
Context `{PyLib}.

(** X4.  A filename template without the [<NAME>] placeholder makes
    [make_log_path] raise [IndexError] ([split] gives one part only). *)
Theorem template_without_placeholder_raises (eq_path log_name character_name : string) :
  occurs_in "<NAME>" log_name = false ->
  make_log_path eq_path log_name character_name = inl IndexError.
Proof.
  intros Hocc. unfold make_log_path, py_split.
  by rewrite split_go_no_occurrence.
Qed.

(** X5.  With the placeholder once in the template, the path is the
    directory joined with the template in which the source's name stands
    in for the placeholder. *)
Theorem placeholder_is_replaced_by_the_name (eq_path before after character_name : string) :
  occurs_in "<NAME>" (before +:+ "<NAME") = false ->
  occurs_in "<NAME>" after = false ->
  make_log_path eq_path (before +:+ "<NAME>" +:+ after) character_name
  = inr (os_path_join eq_path (before +:+ character_name +:+ after)).
Proof.
  intros Hb Ha. unfold make_log_path, py_split.
  rewrite split_go_first_NAME, (split_go_no_occurrence _ _ after) by done. done.
Qed.

(** X6.  Only the first two parts of the template are used: from a
    second placeholder on, the template is dropped. *)
Theorem second_placeholder_truncates_the_path
    (eq_path before middle rest character_name : string) :
  occurs_in "<NAME>" (before +:+ "<NAME") = false ->
  occurs_in "<NAME>" (middle +:+ "<NAME") = false ->
  make_log_path eq_path (before +:+ "<NAME>" +:+ middle +:+ "<NAME>" +:+ rest) character_name
  = inr (os_path_join eq_path (before +:+ character_name +:+ middle)).
Proof.
  intros Hb Hm. unfold make_log_path, py_split.
  rewrite split_go_first_NAME, split_go_first_NAME by done. done.
Qed.

End LogPath.

Lemma template_without_placeholder_raises_witness :
  occurs_in "<NAME>" "eqlog_NAME.txt" = false
  /\ @make_log_path sample_lib "logs" "eqlog_NAME.txt" "Mule" = inl IndexError.
Proof.
  assert (Hocc : occurs_in "<NAME>" "eqlog_NAME.txt" = false) by reflexivity.
  split; [exact Hocc|].
  exact (@template_without_placeholder_raises sample_lib "logs" "eqlog_NAME.txt" "Mule" Hocc).
Defined.

Lemma placeholder_is_replaced_by_the_name_witness :
  @make_log_path sample_lib (eq_path _CONFIG_DEFAULTS)
    ("eqlog_" +:+ "<NAME>" +:+ "_P1999Teal.txt") "Mule"
  = inr (@os_path_join sample_lib (eq_path _CONFIG_DEFAULTS)
           ("eqlog_" +:+ "Mule" +:+ "_P1999Teal.txt")).
Proof.
  apply (@placeholder_is_replaced_by_the_name sample_lib); reflexivity.
Defined.

Lemma second_placeholder_truncates_the_path_witness :
  @make_log_path sample_lib "logs" ("a_" +:+ "<NAME>" +:+ "_b_" +:+ "<NAME>" +:+ ".txt") "Mule"
  = inr (@os_path_join sample_lib "logs" ("a_" +:+ "Mule" +:+ "_b_")).
Proof.
  apply (@second_placeholder_truncates_the_path sample_lib); reflexivity.
Defined.
(* ===================================================================== *)
(** ** The classifier and the scan: further properties *)
(* ===================================================================== *)

(** X7.  Every trade adds exactly one to exactly one of the two
    mappings: for any selection [P] of subjects, what the two mappings
    hold together grows by one if the subject is selected and stays as it
    is otherwise, whatever the state of the inventory. *)
Theorem process_trade_counts_the_subject_once
    (P : string -> bool) (self : t) (ts : datetime) (trade : string * string) :
  let after := (process_trade self ts trade).1 in
  dict_sum P (words after) + dict_sum P (items after)
  = dict_sum P (words self) + dict_sum P (items self) + (if P trade.2 then 1 else 0).
Proof.
  unfold process_trade. cbn [fst snd lbind tell lret words items].
  destruct (matches_word_pattern trade.2 || dict_mem (words self) trade.2).
  - rewrite dict_sum_set. destruct (dict_get (words self) trade.2), (P trade.2); simpl; lia.
  - rewrite dict_sum_set. destruct (dict_get (items self) trade.2), (P trade.2); simpl; lia.
Qed.

Lemma update_lines_skip `{PyLib} (last_action_time : datetime) (line : string) :
  (get_log_timestamp line).1 = None
  \/ (exists ts, (get_log_timestamp line).1 = Some ts /\ datetime_le ts last_action_time = true)
  \/ check_for_trade_action line = None ->
  new_trades last_action_time [line] = [].
Proof.
  cbn [new_trades]. intros [Hts | [(ts & Hts & Hle) | Hm]].
  - by rewrite Hts.
  - by rewrite Hts, Hle.
  - rewrite Hm. destruct (get_log_timestamp line).1 as [ts|]; [|done].
    by destruct (datetime_le ts last_action_time).
Qed.

(** X8.  A line whose timestamp does not parse, or is at or before the
    cutoff, or that is no trade, is passed over: the inventory and the
    counters come out as if the line were not in the log. *)
Theorem skipped_line_changes_nothing `{PyLib}
    (last_action_time : datetime) (before : list string) (line : string)
    (after : list string) (self : t) (num_trades_processed num_trades_for_mule : Z) :
  (get_log_timestamp line).1 = None
  \/ (exists ts, (get_log_timestamp line).1 = Some ts /\ datetime_le ts last_action_time = true)
  \/ check_for_trade_action line = None ->
  (update_lines last_action_time (before ++ line :: after)
     (self, num_trades_processed, num_trades_for_mule)).1
  = (update_lines last_action_time (before ++ after)
       (self, num_trades_processed, num_trades_for_mule)).1.
Proof.
  intros Hskip. rewrite !update_lines_spec.
  change (line :: after) with ([line] ++ after).
  by rewrite !new_trades_app, (update_lines_skip _ _ Hskip).
Qed.

Lemma skipped_line_changes_nothing_witness :
  let self := {| config := sample_config "Mule"; history_path := "history.pickle";
                 history := History.init; words := []; items := [] |} in
  let cutoff := mk_datetime 2020 1 6 20 16 0 in
  (@get_log_timestamp sample_lib newline).1 = None
  /\ (@update_lines sample_lib cutoff ([line_axe] ++ newline :: [line_ring]) (self, 0, 0)).1
     = (@update_lines sample_lib cutoff ([line_axe] ++ [line_ring]) (self, 0, 0)).1.
Proof.
  intros self cutoff.
  assert (Hts : (@get_log_timestamp sample_lib newline).1 = None) by reflexivity.
  split; [exact Hts|].
  exact (@skipped_line_changes_nothing sample_lib cutoff [line_axe] newline [line_ring]
           self 0 0 (or_introl Hts)).
Defined.

(** X9.  The scan of the sources only reads: whether it completes or
    raises, no configuration, log, table or checkpoint file is changed. *)
Theorem scan_writes_no_file `{PyLib}
    (eq_path log_name : string) (last_action_time : datetime) (mules : list string)
    (self : t) (n : Z) (w : World) :
  let w' := (update_mules eq_path log_name last_action_time mules (self, n) w).2 in
  config_files w' = config_files w /\ log_files w' = log_files w
  /\ csv_files w' = csv_files w /\ pickle_files w' = pickle_files w.
Proof.
  destruct (update_mules_spec eq_path log_name last_action_time mules self n w) as [d ->].
  done.
Qed.

(** X10.  The constructor writes no file either, whether it returns or
    raises: in particular no configuration file and no checkpoint file
    is created when it reports that none was found. *)
Theorem constructor_writes_no_file (config_file : string) (w : World) :
  let w' := (init config_file w).2 in
  config_files w' = config_files w /\ log_files w' = log_files w
  /\ csv_files w' = csv_files w /\ pickle_files w' = pickle_files w.
Proof. destruct (init_spec config_file w) as [d ->]. done. Qed.

Section FurtherScanFacts.
Context `{PyLib}.

Lemma mule_paths_app (eq_path log_name : string) (ms1 ms2 : list string) :
  mule_paths eq_path log_name (ms1 ++ ms2)
  = match mule_paths eq_path log_name ms1 with
    | inl e => inl e
    | inr ps1 =>
        match mule_paths eq_path log_name ms2 with
        | inl e => inl e
        | inr ps2 => inr (ps1 ++ ps2)
        end
    end.
Proof.
  induction ms1 as [|m ms1 IH]; cbn [app mule_paths].
  - by destruct (mule_paths eq_path log_name ms2).
  - destruct (make_log_path eq_path log_name m); [done|]. rewrite IH.
    destruct (mule_paths eq_path log_name ms1); [done|].
    by destruct (mule_paths eq_path log_name ms2).
Qed.

Lemma pending_trades_app (logs : gmap string (list string)) (cutoff : datetime)
    (ps1 ps2 : list string) :
  pending_trades logs cutoff (ps1 ++ ps2)
  = pending_trades logs cutoff ps1 ++ pending_trades logs cutoff ps2.
Proof.
  induction ps1 as [|p ps1 IH]; [done|]. cbn [app pending_trades].
  by rewrite IH, app_assoc.
Qed.

(** X11.  A source whose log file does not exist is passed over and the
    remaining sources are still scanned: the inventory and the count of
    trades come out as if the source were not configured. *)
Theorem source_without_log_is_skipped
    (eq_path log_name : string) (last_action_time : datetime)
    (before : list string) (mule_name : string) (after : list string)
    (log_path : string) (self : t) (n : Z) (w : World) :
  make_log_path eq_path log_name mule_name = inr log_path ->
  log_files w !! log_path = None ->
  (update_mules eq_path log_name last_action_time (before ++ mule_name :: after) (self, n) w).1
  = (update_mules eq_path log_name last_action_time (before ++ after) (self, n) w).1.
Proof.
  intros Hpath Hnone.
  destruct (update_mules_spec eq_path log_name last_action_time
              (before ++ mule_name :: after) self n w) as [d1 ->].
  destruct (update_mules_spec eq_path log_name last_action_time
              (before ++ after) self n w) as [d2 ->].
  cbn [fst]. rewrite !mule_paths_app. cbn [mule_paths]. rewrite Hpath.
  destruct (mule_paths eq_path log_name before) as [e|ps1]; [done|].
  destruct (mule_paths eq_path log_name after) as [e|ps2]; [done|].
  cbn zeta. rewrite !pending_trades_app. cbn [pending_trades]. by rewrite Hnone.
Qed.

(** X12.  The two lists of the checkpoint stay in step, and the number
    of trades the scan reports is the number of entries it appended:
    after the scan of any sources, timestamps and actions have each
    grown by the reported count. *)
Theorem scan_reports_the_entries_it_appends
    (eq_path log_name : string) (last_action_time : datetime) (mules : list string)
    (self self' : t) (n n' : Z) (w w' : World) :
  update_mules eq_path log_name last_action_time mules (self, n) w = (inr (self', n'), w') ->
  Z.of_nat (length (History.timestamps (history self')))
    = Z.of_nat (length (History.timestamps (history self))) + (n' - n)
  /\ Z.of_nat (length (History.actions (history self')))
     = Z.of_nat (length (History.actions (history self))) + (n' - n)
  /\ n <= n'.
Proof.
  intros Hrun.
  destruct (update_mules_spec eq_path log_name last_action_time mules self n w) as [d Hspec].
  rewrite Hspec in Hrun.
  destruct (mule_paths eq_path log_name mules) as [e|paths]; [discriminate|].
  cbn zeta in Hrun. injection Hrun as <- <- _.
  destruct (apply_trades_history self (pending_trades (log_files w) last_action_time paths))
    as (Ht & Ha & _ & _).
  rewrite Ht, Ha, !length_app, !length_fmap. lia.
Qed.

End FurtherScanFacts.

Lemma source_without_log_is_skipped_witness :
  let self := {| config := sample_config "Mule,Ghost,Devook"; history_path := "history.pickle";
                 history := History.init; words := []; items := [] |} in
  let sentinel := mk_datetime 1900 1 1 0 0 0 in
  @make_log_path sample_lib "logs" "eqlog_<NAME>.txt" "Ghost" = inr "logs/eqlog_Ghost.txt"
  /\ log_files world_two_logs !! "logs/eqlog_Ghost.txt" = None
  /\ (@update_mules sample_lib "logs" "eqlog_<NAME>.txt" sentinel
        (["Mule"] ++ "Ghost" :: ["Devook"]) (self, 0) world_two_logs).1
     = (@update_mules sample_lib "logs" "eqlog_<NAME>.txt" sentinel
          (["Mule"] ++ ["Devook"]) (self, 0) world_two_logs).1.
Proof.
  intros self sentinel.
  assert (Hp : @make_log_path sample_lib "logs" "eqlog_<NAME>.txt" "Ghost"
               = inr "logs/eqlog_Ghost.txt") by reflexivity.
  assert (Hn : log_files world_two_logs !! "logs/eqlog_Ghost.txt" = None) by reflexivity.
  split; [exact Hp|]. split; [exact Hn|].
  exact (@source_without_log_is_skipped sample_lib "logs" "eqlog_<NAME>.txt" sentinel
           ["Mule"] "Ghost" ["Devook"] "logs/eqlog_Ghost.txt" self 0 world_two_logs Hp Hn).
Defined.

Lemma scan_reports_the_entries_it_appends_witness :
  let self := {| config := sample_config "Mule,Devook"; history_path := "history.pickle";
                 history := History.init; words := []; items := [] |} in
  let sentinel := mk_datetime 1900 1 1 0 0 0 in
  exists self' n' w',
    @update_mules sample_lib "logs" "eqlog_<NAME>.txt" sentinel ["Mule"; "Devook"]
      (self, 0) world_two_logs = (inr (self', n'), w')
    /\ n' = 2
    /\ Z.of_nat (length (History.timestamps (history self'))) = 1 + (n' - 0).
Proof.
  intros self sentinel.
  destruct (@update_mules sample_lib "logs" "eqlog_<NAME>.txt" sentinel ["Mule"; "Devook"]
              (self, 0) world_two_logs) as [[e|[self' n']] w'] eqn:Hrun.
  - vm_compute in Hrun. discriminate Hrun.
  - exists self', n', w'. split; [reflexivity|].
    split; [vm_compute in Hrun; by injection Hrun as _ <- _|].
    exact (proj1 (@scan_reports_the_entries_it_appends sample_lib _ _ _ _ _ _ _ _ _ _ Hrun)).
Defined.
(* ===================================================================== *)
(** ** The tabular merge: further properties *)
(* ===================================================================== *)

Lemma add_counts_to_csv_other_tables (p : string) (nc cc : nat) (deltas : dict) (w : World)
    (q : string) :
  q <> p -> q <> out_file_name p ->
  csv_files (add_counts_to_csv p nc cc deltas w).2 !! q = csv_files w !! q.
Proof.
  intros Hqp Hqo. destruct (csv_files w !! p) as [rows|] eqn:Hp.
  - destruct (merge nc cc rows deltas) as [[e|] st] eqn:Hm.
    + rewrite (add_counts_to_csv_raise _ _ _ _ _ rows e st) by done.
      cbn [snd csv_files set_csv_files add_diag]. by rewrite lookup_insert_ne by congruence.
    + rewrite (add_counts_to_csv_ok _ _ _ _ _ rows st) by done.
      cbn [snd csv_files set_csv_files add_diag].
      by rewrite lookup_insert_ne, lookup_delete_ne by congruence.
  - by rewrite add_counts_to_csv_missing.
Qed.

(** X13.  A call of the merge touches nothing but the table and its
    temporary file: checkpoint, logs, configuration and every other
    table are as before, whether the call returns or raises.  When it
    raises, the table itself is as before; when it returns, the table
    exists and the temporary file does not (a file that was there under
    that name is gone). *)
Theorem merge_touches_only_its_table (p : string) (nc cc : nat) (deltas : dict) (w : World) :
  let r := add_counts_to_csv p nc cc deltas w in
  pickle_files r.2 = pickle_files w /\ log_files r.2 = log_files w
  /\ config_files r.2 = config_files w
  /\ (forall q, q <> p -> q <> out_file_name p -> csv_files r.2 !! q = csv_files w !! q)
  /\ (forall e, r.1 = inl e -> csv_files r.2 !! p = csv_files w !! p)
  /\ (forall d, r.1 = inr d ->
        is_Some (csv_files r.2 !! p) /\ csv_files r.2 !! out_file_name p = None).
Proof.
  intros r. destruct (add_counts_to_csv_frame p nc cc deltas w) as (Hpk & Hlog & Hcfg).
  split; [exact Hpk|]. split; [exact Hlog|]. split; [exact Hcfg|].
  split; [intros q; apply add_counts_to_csv_other_tables|].
  pose proof (out_file_name_neq p) as Hne. subst r.
  destruct (csv_files w !! p) as [rows|] eqn:Hp.
  - destruct (merge nc cc rows deltas) as [[e|] st] eqn:Hm.
    + rewrite (add_counts_to_csv_raise _ _ _ _ _ rows e st) by done.
      cbn [fst snd csv_files set_csv_files add_diag]. split; [|discriminate].
      intros _ _. by rewrite lookup_insert_ne, Hp by done.
    + rewrite (add_counts_to_csv_ok _ _ _ _ _ rows st) by done.
      cbn [fst snd csv_files set_csv_files add_diag]. split; [discriminate|].
      intros _ _. rewrite lookup_insert_eq, lookup_insert_ne, lookup_delete_eq by done.
      split; [by eexists | done].
  - rewrite add_counts_to_csv_missing by done. cbn [fst snd].
    split; [intros _ _; by rewrite Hp | discriminate].
Qed.


(** Readable rows that no key names go to the writer as they are. *)
Lemma merge_rows_untouched (nc cc : nat) (rows : list row) (st : merge_state) :
  Forall (fun r => readable nc cc r = true
                   /\ dict_get (new_counts st) (row_name nc r) = None) rows ->
  exists st', merge_rows nc cc rows st = (None, st')
    /\ new_counts st' = new_counts st /\ written st' = written st ++ rows.
Proof.
  intros Hall. revert st Hall. induction rows as [|r rows IH]; intros st Hall.
  - exists st. cbn. by rewrite app_nil_r.
  - apply Forall_cons in Hall as [[Hr Hg] Hall]. cbn [merge_rows].
    rewrite merge_row_other by done.
    edestruct IH as (st' & Hst' & Hd & Hw); [|rewrite Hst'].
    { exact Hall. }
    exists st'. cbn in *. rewrite Hd, Hw, <- app_assoc. done.
Qed.



(** X15.  With nothing to add, the merge rewrites a table of readable
    rows to the very same rows. *)
Theorem merge_of_no_deltas_keeps_readable_table
    (p : string) (nc cc : nat) (w : World) (rows : list row) :
  csv_files w !! p = Some rows ->
  Forall (fun r => readable nc cc r = true) rows ->
  (add_counts_to_csv p nc cc [] w).1 = inr []
  /\ csv_files (add_counts_to_csv p nc cc [] w).2 !! p = Some rows.
Proof.
  intros Hp Hall.
  destruct (merge_rows_untouched nc cc rows
              {| num_columns := 0; new_counts := []; written := []; emitted := [] |})
    as (st1 & Hst1 & Hd1 & Hw1).
  { eapply Forall_impl; [exact Hall|]. by intros r Hr. }
  cbn [new_counts written app] in Hd1, Hw1.
  assert (Hm : merge nc cc rows [] = (None, st1)).
  { unfold merge. rewrite Hst1, Hd1. done. }
  rewrite (add_counts_to_csv_ok _ _ _ _ _ rows st1 Hp Hm).
  cbn [fst snd csv_files set_csv_files add_diag].
  by rewrite Hd1, Hw1, lookup_insert_eq.
Qed.

Lemma merge_of_no_deltas_keeps_readable_table_witness :
  csv_files world_one_log !! "items.csv" = Some [items_header]
  /\ csv_files (add_counts_to_csv "items.csv" 1 2 [] world_one_log).2 !! "items.csv"
     = Some [items_header].
Proof.
  assert (Hp : csv_files world_one_log !! "items.csv" = Some [items_header]) by reflexivity.
  split; [exact Hp|].
  refine (proj2 (merge_of_no_deltas_keeps_readable_table "items.csv" 1 2 world_one_log
                   [items_header] Hp _)).
  repeat constructor.
Defined.
(* ===================================================================== *)
(** ** Whole runs: further properties *)
(* ===================================================================== *)

(** Whatever neither a merge nor the writing of the checkpoint changes,
    [write_new_trades] does not change. *)
Lemma write_new_trades_preserves {A} (f : World -> A) :
  (forall p nc cc d w, f (add_counts_to_csv p nc cc d w).2 = f w) ->
  (forall g w, f (set_pickle_files g w) = f w) ->
  forall self w, f (write_new_trades self w).2 = f w.
Proof.
  intros Hadd Hset self w.
  unfold write_new_trades. unfold bind at 1, modify at 1.
  set (w1 := set_pickle_files _ w).
  assert (H1 : f w1 = f w) by apply Hset.
  clearbody w1. unfold bind at 1.
  destruct (dict_any (words self)).
  - pose proof (Hadd (word_inventory (config self))
                  _word_name_column _word_count_column (words self) w1) as H2.
    destruct (add_counts_to_csv _ _ _ (words self) w1) as [[e|d] w2]; simpl in H2.
    + simpl. congruence.
    + unfold bind at 1. destruct (dict_any (items self)).
      * pose proof (Hadd (item_inventory (config self))
                      _item_name_column _item_count_column (items self) w2) as H3.
        destruct (add_counts_to_csv _ _ _ (items self) w2) as [[e|d2] w3];
          simpl in *; congruence.
      * simpl. congruence.
  - unfold ret at 1. unfold bind at 1. destruct (dict_any (items self)).
    + pose proof (Hadd (item_inventory (config self))
                    _item_name_column _item_count_column (items self) w1) as H3.
      destruct (add_counts_to_csv _ _ _ (items self) w1) as [[e|d2] w3];
        simpl in *; congruence.
    + simpl. congruence.
Qed.

Lemma write_new_trades_frame (self : t) (w : World) :
  log_files (write_new_trades self w).2 = log_files w
  /\ config_files (write_new_trades self w).2 = config_files w.
Proof.
  split; apply write_new_trades_preserves; try done;
    intros p nc cc d w'; by destruct (add_counts_to_csv_frame p nc cc d w') as (_ & ? & ?).
Qed.

Section FurtherRunFacts.
Context `{PyLib}.

(** A run either raises before anything is written, or reaches
    [write_new_trades] with the events of the logs applied. *)
Lemma main_cases (config_file : string) (w : World) :
  let cfg := resolved_config config_file w in
  exists d,
    (exists e, main config_file w = (inl e, add_diag d w))
    \/ (exists h cutoff paths,
          loaded_history cfg w = Some h
          /\ last (History.timestamps h) = Some cutoff
          /\ mule_paths (eq_path cfg) (log_name cfg) (py_split "," (mule_names cfg)) = inr paths
          /\ main config_file w
             = write_new_trades
                 (apply_trades {| config := cfg; history_path := inventory_pickle cfg;
                                  history := h; words := []; items := [] |}
                               (pending_trades (log_files w) cutoff paths))
                 (add_diag d w)).
Proof.
  intros cfg. destruct (loaded_history cfg w) as [h|] eqn:Hh.
  - destruct (last (History.timestamps h)) as [cutoff|] eqn:Hlast.
    + destruct (mule_paths (eq_path cfg) (log_name cfg) (py_split "," (mule_names cfg)))
        as [e|paths] eqn:Hpaths.
      * destruct (init_spec config_file w) as [d0 Hinit]. fold cfg in Hinit.
        set (self0 := {| config := cfg; history_path := inventory_pickle cfg;
                         history := h; words := []; items := [] |}).
        assert (Hinit' : init config_file w = (inr self0, add_diag d0 w)).
        { rewrite Hinit. unfold loaded_history in Hh.
          destruct (pickle_files w !! inventory_pickle cfg) as [[h'|]|]; by simplify_eq. }
        destruct (update_mules_spec (eq_path cfg) (log_name cfg) cutoff
                    (py_split "," (mule_names cfg)) self0 0 (add_diag d0 w)) as [d1 Hscan].
        rewrite Hpaths, add_diag_add_diag in Hscan.
        exists (d0 ++ d1). left. exists e.
        unfold main. unfold bind at 1. rewrite Hinit'. unfold update.
        cbn [history config self0]. rewrite Hlast. unfold bind at 1. by rewrite Hscan.
      * destruct (main_spec config_file w h cutoff paths) as [d Hmain]; try done.
        { fold cfg. unfold loaded_history in Hh.
          destruct (pickle_files w !! inventory_pickle cfg) as [[h'|]|]; by simplify_eq. }
        exists d. right. by exists h, cutoff, paths.
    + destruct (init_spec config_file w) as [d0 Hinit]. fold cfg in Hinit.
      exists d0. left. exists IndexError.
      unfold main. unfold bind at 1. rewrite Hinit. unfold loaded_history in Hh.
      destruct (pickle_files w !! inventory_pickle cfg) as [[h'|]|]; simplify_eq;
        unfold update; cbn [history]; by rewrite Hlast.
  - destruct (init_spec config_file w) as [d0 Hinit]. fold cfg in Hinit.
    exists d0. left. exists UnpicklingError.
    unfold main. unfold bind at 1. rewrite Hinit. unfold loaded_history in Hh.
    by destruct (pickle_files w !! inventory_pickle cfg) as [[h'|]|].
Qed.

(** X16.  No run changes the words table, and no run ends with a subject
    in the words mapping: every subject a log line can yield is a single
    word and goes to the items mapping.  (The two tables being different
    files, and the words table not the temporary file of the items
    merge.) *)
Theorem run_never_touches_the_words_table (config_file : string) (w : World) :
  let cfg := resolved_config config_file w in
  word_inventory cfg <> item_inventory cfg ->
  word_inventory cfg <> out_file_name (item_inventory cfg) ->
  csv_files (main config_file w).2 !! word_inventory cfg = csv_files w !! word_inventory cfg
  /\ forall inv, (main config_file w).1 = inr inv -> words inv = [].
Proof.
  intros cfg Hwi Hwo.
  destruct (main_cases config_file w) as [d [[e Hmain] | (h & cutoff & paths & _ & _ & _ & Hmain)]];
    fold cfg in Hmain; rewrite Hmain; [split; [done | discriminate]|].
  set (self0 := {| config := cfg; history_path := inventory_pickle cfg;
                   history := h; words := []; items := [] |}).
  set (events := pending_trades (log_files w) cutoff paths).
  destruct (apply_trades_plain (fun _ => true) self0 events) as (Hw & _ & Hkeys & _);
    [done | | constructor |].
  { eapply Forall_impl; [apply pending_trades_after|]. by intros e [_ He]. }
  destruct (apply_trades_history self0 events) as (_ & _ & Hcfg & _).
  rewrite (write_new_trades_items_only _ _ Hw Hkeys). cbn zeta.
  destruct (items (apply_trades self0 events)) as [|kv its];
    [split; [done | intros inv [= <-]; exact Hw]|].
  rewrite Hcfg. cbn [config self0].
  set (w1 := set_pickle_files _ (add_diag d w)).
  pose proof (add_counts_to_csv_other_tables (item_inventory cfg)
                _item_name_column _item_count_column (kv :: its) w1
                (word_inventory cfg) Hwi Hwo) as Hother.
  destruct (add_counts_to_csv _ _ _ _ w1) as [[e|dd] w2]; cbn [fst snd] in *.
  - split; [exact Hother | discriminate].
  - split; [exact Hother | by intros inv [= <-]].
Qed.

(** A run with a checkpoint on disk and no event pending. *)
Lemma run_without_pending (config_file : string) (w : World) (h : History.t)
    (cutoff : datetime) (paths : list string) :
  let cfg := resolved_config config_file w in
  pickle_files w !! inventory_pickle cfg = Some (Pickled h) ->
  last (History.timestamps h) = Some cutoff ->
  mule_paths (eq_path cfg) (log_name cfg) (py_split "," (mule_names cfg)) = inr paths ->
  pending_trades (log_files w) cutoff paths = [] ->
  (main config_file w).1
    = inr {| config := cfg; history_path := inventory_pickle cfg;
             history := h; words := []; items := [] |}
  /\ csv_files (main config_file w).2 = csv_files w
  /\ pickle_files (main config_file w).2 = pickle_files w
  /\ log_files (main config_file w).2 = log_files w.
Proof.
  intros cfg Hpk Hlast Hpaths Hnone.
  destruct (main_spec config_file w h cutoff paths) as [d Hmain]; try done.
  { fold cfg. by rewrite Hpk. }
  fold cfg in Hmain. rewrite Hmain, Hnone. cbn [apply_trades fold_left].
  rewrite write_new_trades_items_only by (done || constructor).
  cbn. repeat split; try done. by apply insert_id.
Qed.

(** X17.  A run that finds no line after the cutoff changes nothing: with
    a checkpoint on disk and no event pending in the logs of its sources,
    the run completes with both mappings empty and leaves the tables,
    the checkpoint file and the logs exactly as they were. *)
Theorem run_with_nothing_new_changes_nothing (config_file : string) (w : World)
    (h : History.t) (cutoff : datetime) (paths : list string) :
  let cfg := resolved_config config_file w in
  pickle_files w !! inventory_pickle cfg = Some (Pickled h) ->
  last (History.timestamps h) = Some cutoff ->
  mule_paths (eq_path cfg) (log_name cfg) (py_split "," (mule_names cfg)) = inr paths ->
  pending_trades (log_files w) cutoff paths = [] ->
  (exists inv, (main config_file w).1 = inr inv /\ words inv = [] /\ items inv = []
               /\ history inv = h)
  /\ csv_files (main config_file w).2 = csv_files w
  /\ pickle_files (main config_file w).2 = pickle_files w
  /\ log_files (main config_file w).2 = log_files w.
Proof.
  intros cfg Hpk Hlast Hpaths Hnone.
  destruct (run_without_pending config_file w h cutoff paths Hpk Hlast Hpaths Hnone)
    as (Hres & Hrest).
  split; [|exact Hrest]. eexists. split; [exact Hres|]. done.
Qed.

End FurtherRunFacts.

Lemma run_never_touches_the_words_table_witness :
  let cfg := resolved_config "config.cfg" world_ring_in_words in
  word_inventory cfg <> item_inventory cfg
  /\ word_inventory cfg <> out_file_name (item_inventory cfg)
  /\ csv_files (sample_run world_ring_in_words).2 !! word_inventory cfg
     = csv_files world_ring_in_words !! word_inventory cfg.
Proof.
  intros cfg.
  assert (H1 : word_inventory cfg <> item_inventory cfg)
    by (intros Heq; vm_compute in Heq; discriminate Heq).
  assert (H2 : word_inventory cfg <> out_file_name (item_inventory cfg))
    by (intros Heq; vm_compute in Heq; discriminate Heq).
  split; [exact H1|]. split; [exact H2|].
  exact (proj1 (@run_never_touches_the_words_table sample_lib "config.cfg"
                  world_ring_in_words H1 H2)).
Defined.

Lemma run_with_nothing_new_changes_nothing_witness :
  let w := (sample_run world_one_log).2 in
  csv_files (sample_run w).2 = csv_files w
  /\ pickle_files (sample_run w).2 = pickle_files w.
Proof.
  intros w.
  destruct (@run_with_nothing_new_changes_nothing sample_lib "config.cfg" w
              {| History.timestamps := [mk_datetime 1900 1 1 0 0 0; mk_datetime 2020 1 6 20 16 0];
                 History.actions := [""; "Bob -> Ring"] |}
              (mk_datetime 2020 1 6 20 16 0) [mule_log])
    as (_ & Hcsv & Hpk & _).
  - vm_compute. reflexivity.
  - reflexivity.
  - vm_compute. reflexivity.
  - vm_compute. reflexivity.
  - split; [exact Hcsv | exact Hpk].
Defined.
(* ===================================================================== *)
(** ** The order of timestamps and the second run *)
(* ===================================================================== *)

Lemma lex_compare_refl (a : list Z) : lex_compare a a = Eq.
Proof. induction a as [|x a IH]; [done|]. simpl. by rewrite Z.compare_refl. Qed.

Lemma lex_compare_antisym (a b : list Z) : lex_compare b a = CompOpp (lex_compare a b).
Proof.
  revert b. induction a as [|x a IH]; intros [|y b]; simpl; try done.
  rewrite (Z.compare_antisym x y). destruct (x ?= y); simpl; [apply IH | done | done].
Qed.

Lemma lex_compare_trans (a b c : list Z) :
  lex_compare a b <> Gt -> lex_compare b c <> Gt -> lex_compare a c <> Gt.
Proof.
  revert b c. induction a as [|x a IH]; intros [|y b] [|z c]; simpl; try done.
  destruct (Z.compare_spec x y) as [->|Hxy|Hxy]; [|  |done].
  - destruct (Z.compare_spec y z) as [->|Hyz|Hyz]; [apply IH | done | done].
  - destruct (Z.compare_spec y z) as [->|Hyz|Hyz]; [| |done]; intros _ _.
    + destruct (Z.compare_spec x z); [lia | done | lia].
    + destruct (Z.compare_spec x z); [lia | done | lia].
Qed.

Lemma datetime_le_refl (a : datetime) : datetime_le a a = true.
Proof. unfold datetime_le. by rewrite lex_compare_refl. Qed.

Lemma datetime_le_total (a b : datetime) : datetime_le a b = false -> datetime_le b a = true.
Proof.
  unfold datetime_le. rewrite (lex_compare_antisym (datetime_key a) (datetime_key b)).
  by destruct (lex_compare (datetime_key a) (datetime_key b)).
Qed.

Lemma datetime_le_trans (a b c : datetime) :
  datetime_le a b = true -> datetime_le b c = true -> datetime_le a c = true.
Proof.
  unfold datetime_le. intros Hab Hbc.
  pose proof (lex_compare_trans (datetime_key a) (datetime_key b) (datetime_key c)) as Ht.
  destruct (lex_compare (datetime_key a) (datetime_key b)); try done;
    destruct (lex_compare (datetime_key b) (datetime_key c)); try done;
    destruct (lex_compare (datetime_key a) (datetime_key c)); try done;
    exfalso; by apply Ht.
Qed.

Lemma nondecreasing_le_last (l : list datetime) (x y : datetime) :
  nondecreasing l = true -> x ∈ l -> last l = Some y -> datetime_le x y = true.
Proof.
  revert x. induction l as [|a l IH]; intros x Hsorted Hx Hlast; [by apply elem_of_nil in Hx|].
  destruct l as [|b l].
  - apply list_elem_of_singleton in Hx as ->. injection Hlast as <-. apply datetime_le_refl.
  - cbn [nondecreasing] in Hsorted. apply andb_true_iff in Hsorted as [Hab Hsorted].
    change (last (a :: b :: l)) with (last (b :: l)) in Hlast.
    apply elem_of_cons in Hx as [->|Hx].
    + apply (datetime_le_trans _ b); [done|]. apply IH; [done | left | done].
    + by apply IH.
Qed.

Section SecondRun.
Context `{PyLib}.

(** With a later cutoff that bounds every event extracted under an
    earlier one, nothing is extracted. *)
Lemma new_trades_none_after (c c' : datetime) (lines : list string) :
  datetime_le c c' = true ->
  Forall (fun e => datetime_le e.1 c' = true) (new_trades c lines) ->
  new_trades c' lines = [].
Proof.
  intros Hcc'. induction lines as [|line rest IH]; [done|]. cbn [new_trades].
  destruct (get_log_timestamp line).1 as [ts|]; [|exact IH].
  destruct (datetime_le ts c') eqn:Hc'.
  - destruct (datetime_le ts c); [exact IH|].
    destruct (check_for_trade_action line); [|exact IH].
    intros Hall. apply Forall_cons in Hall as [_ Hall]. by apply IH.
  - destruct (datetime_le ts c) eqn:Hc.
    { rewrite (datetime_le_trans ts c c' Hc Hcc') in Hc'. discriminate. }
    destruct (check_for_trade_action line); [|exact IH].
    intros Hall. apply Forall_cons in Hall as [Hts _]. simpl in Hts. congruence.
Qed.

Lemma pending_trades_none_after (logs : gmap string (list string)) (c c' : datetime)
    (paths : list string) :
  datetime_le c c' = true ->
  Forall (fun e => datetime_le e.1 c' = true) (pending_trades logs c paths) ->
  pending_trades logs c' paths = [].
Proof.
  intros Hcc'. induction paths as [|p rest IH]; [done|]. cbn [pending_trades].
  intros Hall. apply Forall_app in Hall as [Hhere Hrest]. rewrite IH by done.
  destruct (logs !! p); [|done]. by rewrite (new_trades_none_after c c').
Qed.

(** When the events of a scan come in non-decreasing order of time, none
    of them is later than the last one, which is the next cutoff. *)
Lemma ordered_events_leave_nothing_pending (logs : gmap string (list string))
    (cutoff : datetime) (paths : list string) :
  let events := pending_trades logs cutoff paths in
  nondecreasing (fst <$> events) = true ->
  pending_trades logs (default cutoff (last (fst <$> events))) paths = [].
Proof.
  intros events Hsorted.
  destruct (last (fst <$> events)) as [c'|] eqn:Hlast; cbn [default from_option id].
  - apply (pending_trades_none_after logs cutoff c').
    + pose proof (pending_trades_after logs cutoff paths) as Hafter. fold events in Hafter.
      destruct events as [|e events']; [done|].
      apply Forall_cons in Hafter as [[He _] _].
      apply (datetime_le_trans _ e.1); [by apply datetime_le_total|].
      apply (nondecreasing_le_last (fst <$> e :: events')); [done | left | done].
    + apply Forall_forall. intros e He.
      apply (nondecreasing_le_last (fst <$> events)); [done | | done].
      apply list_elem_of_fmap. by exists e.
  - apply last_None, fmap_nil_inv in Hlast. exact Hlast.
Qed.

(** X18.  When the events a run extracts come in non-decreasing order of
    time (as from one log written in order of time), a second run with no
    line added changes nothing: it completes with both mappings empty and
    leaves the tables, the checkpoint file and the logs exactly as the
    first run left them, whatever the first run's merges did. *)
Theorem second_run_after_ordered_events_changes_nothing
    (config_file : string) (w : World) (h : History.t) (cutoff : datetime)
    (paths : list string) :
  let cfg := resolved_config config_file w in
  loaded_history cfg w = Some h ->
  last (History.timestamps h) = Some cutoff ->
  mule_paths (eq_path cfg) (log_name cfg) (py_split "," (mule_names cfg)) = inr paths ->
  nondecreasing (fst <$> pending_trades (log_files w) cutoff paths) = true ->
  let w1 := (main config_file w).2 in
  (exists inv, (main config_file w1).1 = inr inv /\ words inv = [] /\ items inv = [])
  /\ csv_files (main config_file w1).2 = csv_files w1
  /\ pickle_files (main config_file w1).2 = pickle_files w1
  /\ log_files (main config_file w1).2 = log_files w1.
Proof.
  intros cfg Hh Hlast Hpaths Hsorted w1.
  destruct (main_spec config_file w h cutoff paths) as [d Hmain]; try done.
  { fold cfg. unfold loaded_history in Hh.
    destruct (pickle_files w !! inventory_pickle cfg) as [[h'|]|]; by simplify_eq. }
  fold cfg in Hmain.
  set (events := pending_trades (log_files w) cutoff paths) in *.
  set (self1 := apply_trades {| config := cfg; history_path := inventory_pickle cfg;
                                history := h; words := []; items := [] |} events) in *.
  destruct (apply_trades_history {| config := cfg; history_path := inventory_pickle cfg;
                                    history := h; words := []; items := [] |} events)
    as (Ht & _ & _ & Hpath).
  fold self1 in Ht, Hpath. cbn [history history_path] in Ht, Hpath.
  destruct (write_new_trades_frame self1 (add_diag d w)) as [Hlog1 Hcfg1].
  pose proof (write_new_trades_pickles self1 (add_diag d w)) as Hpk1.
  rewrite <- Hmain in Hlog1, Hcfg1, Hpk1. fold w1 in Hlog1, Hcfg1, Hpk1.
  cbn [log_files config_files pickle_files add_diag] in Hlog1, Hcfg1, Hpk1.
  assert (Hres : resolved_config config_file w1 = cfg)
    by (unfold resolved_config, cfg; by rewrite Hcfg1).
  pose proof (run_without_pending config_file w1 (history self1)
                (default cutoff (last (fst <$> events))) paths) as Hrun.
  cbn zeta in Hrun. rewrite Hres in Hrun.
  destruct Hrun as (Hinv & Hrest).
  - by rewrite Hpk1, Hpath, lookup_insert_eq.
  - rewrite Ht, last_app. by destruct (last (fst <$> events)).
  - exact Hpaths.
  - rewrite Hlog1. by apply ordered_events_leave_nothing_pending.
  - split; [|exact Hrest]. eexists. split; [exact Hinv|]. done.
Qed.

End SecondRun.

Lemma second_run_after_ordered_events_changes_nothing_witness :
  let w1 := (sample_run world_one_log).2 in
  csv_files w1 !! "items.csv" = Some [items_header; [""; "Ring"; "1"]]
  /\ csv_files (sample_run w1).2 = csv_files w1
  /\ pickle_files (sample_run w1).2 = pickle_files w1.
Proof.
  intros w1. split; [vm_compute; reflexivity|].
  destruct (@second_run_after_ordered_events_changes_nothing sample_lib "config.cfg"
              world_one_log History.init (mk_datetime 1900 1 1 0 0 0) [mule_log])
    as (_ & Hcsv & Hpk & _).
  - reflexivity.
  - reflexivity.
  - reflexivity.
  - vm_compute. reflexivity.
  - split; [exact Hcsv | exact Hpk].
Defined.
(* ===================================================================== *)
(** ** The appended rows *)
(* ===================================================================== *)

Lemma appended_row_other_cells (nc cc n : nat) (kv : string * Z) (i : nat) :
  i <> nc -> i <> cc -> (i < n)%nat -> appended_row nc cc n kv !! i = Some EmptyString.
Proof.
  intros Hnc Hcc Hlt. unfold appended_row.
  rewrite list_lookup_fmap, !list_lookup_insert_ne by congruence.
  by rewrite lookup_replicate_2.
Qed.

(** X19.  When the widest row seen is wider than both column positions
    (and these differ), the append loop does not raise: it writes one row
    for each remaining key, in the order of the mapping, each as wide as
    the widest row, from which the key and its count read back at their
    columns and whose other cells are empty; the mapping itself is left
    as it is. *)
Theorem appended_rows_read_back (nc cc : nat) (st : merge_state) :
  nc <> cc ->
  (Nat.max nc cc < num_columns st)%nat ->
  exists st' rows,
    append_rows nc cc (new_counts st) st = (None, st')
    /\ written st' = written st ++ rows
    /\ new_counts st' = new_counts st
    /\ Forall2 (fun (kv : string * Z) (r : row) =>
                  length r = num_columns st
                  /\ row_name nc r = kv.1
                  /\ py_int (nth cc r EmptyString) = Some kv.2
                  /\ forall i, i <> nc -> i <> cc -> (i < num_columns st)%nat ->
                       r !! i = Some EmptyString)
               (new_counts st) rows.
Proof.
  intros Hne Hwide.
  destruct (append_rows_ok nc cc (new_counts st) st Hwide) as (st' & Hrun & _ & Hd & Hw).
  exists st', (appended_row nc cc (num_columns st) <$> new_counts st).
  split; [exact Hrun|]. split; [exact Hw|]. split; [exact Hd|].
  apply Forall2_fmap_r, Forall_Forall2_diag, Forall_forall. intros kv _.
  split; [apply appended_row_length|].
  split; [apply appended_row_name; [done | lia]|].
  split.
  - unfold appended_row. rewrite nth_lookup, list_lookup_fmap.
    rewrite list_lookup_insert_eq by (rewrite length_insert, length_replicate; lia).
    simpl. apply py_int_str.
  - intros i. apply appended_row_other_cells.
Qed.

Lemma appended_rows_read_back_witness :
  let st := {| num_columns := 4; new_counts := [("Rune", 4)]; written := [];
               emitted := [] |} in
  exists st', append_rows 2 3 (new_counts st) st = (None, st')
              /\ written st' = [[""; ""; "Rune"; "4"]].
Proof.
  intros st.
  destruct (appended_rows_read_back 2 3 st) as (st' & rows & Hrun & Hw & _ & _);
    [discriminate | simpl; lia |].
  exists st'. split; [exact Hrun|].
  vm_compute in Hrun. injection Hrun as <-. reflexivity.
Defined.
